(** * xmlschema.etree: helper functions over ElementTree trees

    A shallow embedding of [src/xmlschema/etree.py]: the serializer's line
    post-processing ([etree_tostring]), the path iterator ([etree_iterpath],
    [etree_getpath]), the schema-location reader
    ([etree_iter_location_hints]), the tree comparator
    ([etree_elements_assert_equal]) and the pruner ([prune_etree]).

    Conventions.
    - A Python [str] is a [string]; every [ascii] stands for one code point
      below 256, which is the range on which the character classes below
      are written out.
    - An [Element] is a record with the fields the code reads ([tag],
      [attrib], [text], [tail], the children) plus [eid], the identity of
      the Python object, which is what [is], [in] and [list.remove] compare.
    - A generator is the list of the values it yields, in order.
    - A function that can raise returns a sum type naming the exception;
      the limits of the interpreter (memory, depth of recursion) are not
      modelled. *)

From Stdlib Require Import Bool Arith ZArith List Ascii String Lia.
From Stdlib Require Import DecimalString.
Import ListNotations.

Set Implicit Arguments.
Local Open Scope list_scope.
Local Open Scope string_scope.
Local Open Scope nat_scope.

(* ================================================================= *)
(** ** Builtins of the host language used by the module *)

Module Py.

(** [str.isspace] on one character, which is also the class [\s] of the
    [re] module for [str] patterns. *)
Definition is_space (c : ascii) : bool :=
  let n := nat_of_ascii c in
  ((9 <=? n) && (n <=? 13)) || ((28 <=? n) && (n <=? 32))
  || (n =? 133) || (n =? 160).

(** Line boundaries of [str.splitlines]. *)
Definition is_linebreak (c : ascii) : bool :=
  let n := nat_of_ascii c in
  ((10 <=? n) && (n <=? 13)) || ((28 <=? n) && (n <=? 30)) || (n =? 133).

Definition is_cr (c : ascii) : bool := nat_of_ascii c =? 13.
Definition is_lf (c : ascii) : bool := nat_of_ascii c =? 10.
Definition is_tab (c : ascii) : bool := nat_of_ascii c =? 9.
Definition is_blank (c : ascii) : bool := nat_of_ascii c =? 32.

(** Truth value of a string: [bool(s)]. *)
Definition truthy (s : string) : bool :=
  match s with EmptyString => false | String _ _ => true end.

Fixpoint lstrip (s : string) : string :=
  match s with
  | EmptyString => EmptyString
  | String c s' => if is_space c then lstrip s' else s
  end.

Fixpoint rstrip (s : string) : string :=
  match s with
  | EmptyString => EmptyString
  | String c s' =>
      match rstrip s' with
      | EmptyString => if is_space c then EmptyString else String c EmptyString
      | r => String c r
      end
  end.

(** [s.strip()] *)
Definition strip (s : string) : string := rstrip (lstrip s).

(** [s.split()]: the maximal runs of non-space characters. *)
Fixpoint split (s : string) : list string :=
  match s with
  | EmptyString => []
  | String c s' =>
      if is_space c then split s'
      else match s' with
           | EmptyString => [String c EmptyString]
           | String c' _ =>
               if is_space c' then String c EmptyString :: split s'
               else match split s' with
                    | t :: ts => String c t :: ts
                    | [] => [String c EmptyString]
                    end
           end
  end.

(** [s.splitlines()]: [\r\n] counts as one boundary and a final boundary
    opens no further line. *)
Fixpoint splitlines (s : string) : list string :=
  match s with
  | EmptyString => []
  | String c s' =>
      if is_cr c then
        match s' with
        | String c' s'' =>
            if is_lf c' then EmptyString :: splitlines s''
            else EmptyString :: splitlines s'
        | EmptyString => [EmptyString]
        end
      else if is_linebreak c then EmptyString :: splitlines s'
      else match splitlines s' with
           | l :: ls => String c l :: ls
           | [] => [String c EmptyString]
           end
  end.

(** [' ' * n] *)
Fixpoint spaces (n : nat) : string :=
  match n with O => EmptyString | S k => String " " (spaces k) end.

(** [s.replace('\t', ' ' * n)] *)
Fixpoint replace_tabs (n : nat) (s : string) : string :=
  match s with
  | EmptyString => EmptyString
  | String c s' =>
      if is_tab c then spaces n ++ replace_tabs n s'
      else String c (replace_tabs n s')
  end.

Fixpoint drop (n : nat) (s : string) : string :=
  match n, s with
  | O, _ => s
  | S k, String _ s' => drop k s'
  | S _, EmptyString => EmptyString
  end.

(** [s[i:]] for any integer [i]: a negative index counts from the end and
    indices are clamped to the string. *)
Definition slice_from (i : Z) (s : string) : string :=
  let len := Z.of_nat (String.length s) in
  let j := if (i <? 0)%Z then Z.max 0 (i + len) else i in
  drop (Z.to_nat j) s.

(** [l[:k]] for any integer [k]. *)
Definition list_slice_to {A} (k : Z) (l : list A) : list A :=
  let len := Z.of_nat (List.length l) in
  let j := if (k <? 0)%Z then Z.max 0 (k + len) else k in
  firstn (Z.to_nat j) l.

(** [l[-1:]] *)
Definition list_last_slice {A} (l : list A) : list A :=
  skipn (List.length l - 1) l.

(** [l[1:-1]] *)
Definition list_inner {A} (l : list A) : list A :=
  removelast (tl l).

(** [s.startswith(p)] *)
Definition startswith (s p : string) : bool := String.prefix p s.

(** [sep.join(l)] *)
Definition join (sep : string) (l : list string) : string :=
  String.concat sep l.

(** Whether a string holds a backslash. *)
Fixpoint has_backslash (s : string) : bool :=
  match s with
  | EmptyString => false
  | String c s' => (nat_of_ascii c =? 92) || has_backslash s'
  end.

(** What [_REGEX_SPACES.sub(repl, s)] returns once the replacement is
    compiled, for [_REGEX_SPACES = re.compile(r'\s+')]: every maximal run
    of space characters of [s] is replaced by [expand run], what the
    compiled replacement stands for at that run.  [run] is the run that is
    being read. *)
Fixpoint regex_spaces_sub (expand : string -> string) (run s : string)
  : string :=
  match s with
  | EmptyString => if truthy run then expand run else EmptyString
  | String c s' =>
      if is_space c
      then regex_spaces_sub expand (run ++ String c EmptyString) s'
      else (if truthy run then expand run else EmptyString)
             ++ String c (regex_spaces_sub expand EmptyString s')
  end.

(** ['%d' % n] *)
Definition format_d (n : nat) : string :=
  NilEmpty.string_of_uint (Nat.to_uint n).

(** [sorted(l, key=key)] for string keys: the stable sort that compares
    keys with [<] on strings, code point by code point. *)
Section Sorted.
Variable A : Type.
Variable key : A -> string.

Fixpoint insert_sorted (x : A) (l : list A) : list A :=
  match l with
  | [] => [x]
  | y :: l' =>
      if String.ltb (key y) (key x) then y :: insert_sorted x l'
      else x :: l
  end.

Definition sorted (l : list A) : list A :=
  fold_right insert_sorted [] l.
End Sorted.

(** A [dict] with string keys and values, in insertion order; a key
    occurs once. *)
Definition dict := list (string * string).

Fixpoint dict_get (d : dict) (k : string) : option string :=
  match d with
  | [] => None
  | (k', v) :: d' => if String.eqb k' k then Some v else dict_get d' k
  end.

(** [k in d] *)
Definition dict_mem (k : string) (d : dict) : bool :=
  match dict_get d k with Some _ => true | None => false end.

(** [d.keys()] as a list. *)
Definition dict_keys (d : dict) : list string := map fst d.

Definition option_string_eqb (a b : option string) : bool :=
  match a, b with
  | None, None => true
  | Some x, Some y => String.eqb x y
  | _, _ => false
  end.

(** [d1 == d2]: the same number of items, and each item of [d1] in [d2]. *)
Definition dict_eqb (d1 d2 : dict) : bool :=
  (List.length d1 =? List.length d2)
  && forallb (fun kv => option_string_eqb (dict_get d2 (fst kv)) (Some (snd kv))) d1.

Fixpoint list_string_eqb (l1 l2 : list string) : bool :=
  match l1, l2 with
  | [], [] => true
  | x :: l1', y :: l2' => String.eqb x y && list_string_eqb l1' l2'
  | _, _ => false
  end.

(** [l[0::2]] and [l[1::2]] *)
Fixpoint evens {A} (l : list A) : list A :=
  match l with
  | [] => []
  | x :: l' => x :: match l' with [] => [] | _ :: l'' => evens l'' end
  end.

Definition odds {A} (l : list A) : list A := evens (tl l).

End Py.

(* ================================================================= *)
(** ** The tree *)

Local Open Scope list_scope.

(** The two factory functions of ElementTree whose nodes carry the function
    itself as tag, so that [callable(node.tag)] holds for them. *)
Inductive factory : Type := Comment | ProcessingInstruction.

Inductive Tag : Type :=
| Name (s : string)
| Factory (f : factory).

Definition factory_eqb (f g : factory) : bool :=
  match f, g with
  | Comment, Comment => true
  | ProcessingInstruction, ProcessingInstruction => true
  | _, _ => false
  end.

(** [t1 == t2] on tags: strings by value, functions by identity. *)
Definition tag_eqb (t1 t2 : Tag) : bool :=
  match t1, t2 with
  | Name a, Name b => String.eqb a b
  | Factory f, Factory g => factory_eqb f g
  | _, _ => false
  end.

(** [callable(t)] *)
Definition callable (t : Tag) : bool :=
  match t with Name _ => false | Factory _ => true end.

(** ['%s' % t]; for a function the address that Python prints is left out. *)
Definition format_s (t : Tag) : string :=
  match t with
  | Name s => s
  | Factory Comment => "<function Comment>"
  | Factory ProcessingInstruction => "<function ProcessingInstruction>"
  end.

Unset Elimination Schemes.
Inductive Element : Type :=
  mkElement {
      eid : nat;
      tag : Tag;
      attrib : Py.dict;
      text : option string;
      tail : option string;
      children : list Element
    }.
Set Elimination Schemes.

(** [e1 is e2] *)
Definition is_ (e1 e2 : Element) : bool := eid e1 =? eid e2.

(** [e in parent]: a child of [parent] is the object [e]. *)
Definition elem_in (e parent : Element) : bool :=
  existsb (is_ e) (children parent).

(** The node and all its descendants, in document order. *)
Fixpoint nodes (e : Element) : list Element :=
  e :: flat_map nodes (children e).

Fixpoint height (e : Element) : nat :=
  S (fold_right (fun c h => Nat.max (height c) h) 0 (children e)).

(** No object occurs twice in the tree. *)
Definition well_formed (e : Element) : Prop := NoDup (map eid (nodes e)).

(** The exceptions of the host language that the functions let escape,
    [AssertionError] apart, which the comparator raises with a reason;
    [re_error] is [re.error]. *)
Inductive exception : Type :=
| TypeError
| IndexError
| ValueError
| AttributeError
| KeyError
| re_error.

(** What [etree.py] imports from the modules [namespaces] and [qnames] of
    the package, which are declared outside this file of the package.
    [get_namespace] and [get_qname] are functions of names, which are
    strings.  The comparator also calls them on the tag of a comment or of
    a processing instruction, which is a function: what they do then is
    [get_namespace_callable] and [get_qname_callable], where [None] is the
    [TypeError] of an operation on strings applied to a function. *)
Class QNames : Type :=
  {
    get_namespace : string -> string;
    get_namespace_callable : factory -> option string;
    get_qname : string -> string -> string;
    get_qname_callable : string -> factory -> option Tag;
    get_prefixed_qname : Tag -> Py.dict -> string;
    XSI_SCHEMA_LOCATION : string;
    XSI_NONS_SCHEMA_LOCATION : string
  }.

(** [get_namespace(t)] and [get_qname(uri, t)] for any tag [t]. *)
Definition tag_namespace {Q : QNames} (t : Tag) : option string :=
  match t with
  | Name s => Some (get_namespace s)
  | Factory f => get_namespace_callable f
  end.

Definition tag_qname {Q : QNames} (uri : string) (t : Tag) : option Tag :=
  match t with
  | Name s => Some (Name (get_qname uri s))
  | Factory f => get_qname_callable uri f
  end.

(** The replacement templates of the module [re], for a pattern without
    groups.  [sub] compiles its replacement before it looks at the
    subject: [compile_template repl] is the exception of that step or what
    the replacement stands for at a match.  A replacement without
    backslash stands for itself; in another one an escape can be refused,
    with [re.error] for a bad escape or a reference to a group that the
    pattern does not have, and with [IndexError] for an unknown group
    name. *)
Class Regex : Type :=
  {
    compile_template : string -> exception + (string -> string);
    template_literal :
      forall repl,
        Py.has_backslash repl = false ->
        compile_template repl = inr (fun _ => repl);
    template_exceptions :
      forall repl e,
        compile_template repl = inl e -> e = re_error \/ e = IndexError
  }.

(** The builtin [float] on strings, [None] where Python raises
    [ValueError], and [==] on its values. *)
Class Floats : Type :=
  {
    pyfloat : Type;
    float : string -> option pyfloat;
    float_eqb : pyfloat -> pyfloat -> bool
  }.

(* ================================================================= *)
(** ** Path indexer and schema locations *)

(** [collections.Counter] over tags, keys in order of first insertion. *)
Definition counter := list (Tag * nat).

Fixpoint counter_get (c : counter) (t : Tag) : option nat :=
  match c with
  | [] => None
  | (t', n) :: c' => if tag_eqb t' t then Some n else counter_get c' t
  end.

(** [c[t] += 1] *)
Fixpoint counter_incr (t : Tag) (c : counter) : counter :=
  match c with
  | [] => [(t, 1)]
  | (t', n) :: c' =>
      if tag_eqb t' t then (t', S n) :: c' else (t', n) :: counter_incr t c'
  end.

(** [Counter(l)] *)
Definition Counter (l : list Tag) : counter :=
  fold_left (fun c t => counter_incr t c) l [].

Section PathIndexer.
Context {Q : QNames}.

Section Children.
Variable rec : Element -> string -> list (Element * string).
Variable path : string.
Variable namespaces : option Py.dict.

(** The loop [for child in elem] of [etree_iterpath], with the recursive
    call as [rec] and the counter [positions] as state. *)
Fixpoint iterpath_children (positions : counter) (cs : list Element)
  : list (Element * string) :=
  match cs with
  | [] => []
  | child :: rest =>
      if callable (tag child) then iterpath_children positions rest
      else
        let child_name :=
          match namespaces with
          | None => format_s (tag child)
          | Some ns => get_prefixed_qname (tag child) ns
          end in
        let child_path :=
          if String.eqb path "/" then ("/" ++ child_name)%string
          else if Py.truthy path then Py.join "/" [path; child_name]
          else child_name in
        match counter_get positions (tag child) with
        | Some n =>
            rec child (child_path ++ "[" ++ Py.format_d n ++ "]")%string
              ++ iterpath_children (counter_incr (tag child) positions) rest
        | None =>
            rec child child_path ++ iterpath_children positions rest
        end
  end.
End Children.

(** The counter [positions] that [etree_iterpath] builds for a node. *)
Definition initial_positions (add_position : bool) (cs : list Element)
  : counter :=
  if add_position then
    let children_tags := Counter (map tag cs) in
    Counter (map fst (filter (fun tn => 1 <? snd tn) children_tags))
  else [].

Fixpoint etree_iterpath (elem : Element) (tag_filter : option Tag)
  (path : string) (namespaces : option Py.dict) (add_position : bool)
  {struct elem} : list (Element * string) :=
  let tag_filter :=
    match tag_filter with
    | Some (Name "*") => None
    | _ => tag_filter
    end in
  (match tag_filter with
   | None => [(elem, path)]
   | Some t => if tag_eqb (tag elem) t then [(elem, path)] else []
   end)
    ++ iterpath_children
         (fun child child_path =>
            etree_iterpath child tag_filter child_path namespaces add_position)
         path namespaces
         (initial_positions add_position (children elem))
         (children elem).

(** The first pair yielded by a generator that passes a test. *)
Fixpoint first_path (test : Element -> bool) (l : list (Element * string))
  : option string :=
  match l with
  | [] => None
  | (e, p) :: l' => if test e then Some p else first_path test l'
  end.

Definition etree_getpath (elem root : Element) (namespaces : option Py.dict)
  (relative add_position parent_path : bool) : option string :=
  let path :=
    if relative then "."
    else match namespaces with
         | Some ((_ :: _) as ns) =>
             ("/" ++ get_prefixed_qname (tag root) ns)%string
         | _ => ("/" ++ format_s (tag root))%string
         end in
  if negb parent_path then
    first_path (fun e => is_ e elem)
      (etree_iterpath root (Some (tag elem)) path namespaces add_position)
  else if elem_in elem root then Some path
  else
    first_path (fun e => elem_in elem e)
      (etree_iterpath root (Some (tag elem)) path namespaces add_position).

Definition etree_iter_location_hints (elem : Element)
  : list (string * string) :=
  (match Py.dict_get (attrib elem) XSI_SCHEMA_LOCATION with
   | Some v =>
       let locations := Py.split v in
       combine (Py.evens locations) (Py.odds locations)
   | None => []
   end)
    ++
  (match Py.dict_get (attrib elem) XSI_NONS_SCHEMA_LOCATION with
   | Some v => map (fun url => ("", url)) (Py.split v)
   | None => []
   end).

End PathIndexer.

(* ================================================================= *)
(** ** Serializer *)

(** What the backend's [tostring] returns: a [str] with
    [encoding='unicode'], which is the default, and [bytes] with any other
    encoding. *)
Inductive serialized : Type :=
| Str (s : string)
| Bytes (b : string).

(** [etree_tostring] from the line that follows the call of the backend's
    [tostring].  The type test on [elem], the choice of the backend and the
    registration of [namespaces] come before that call and decide whether
    it is made; [xml_text] is what it returns.  The function returns a
    string or raises: [TypeError] from [replace] with [str] arguments on
    [bytes], [IndexError] from [lines[-1]] on an empty list, [ValueError]
    from [min] on an empty sequence. *)
Inductive tostring_result : Type :=
| Text (s : string)
| Failed (e : exception).

Section Serializer.
Variable indent : string.

(** [while lines and not lines[-1].strip(): lines.pop(-1)] *)
Fixpoint drop_trailing_blank (lines : list string) : list string :=
  match lines with
  | [] => []
  | l :: ls =>
      match drop_trailing_blank ls with
      | [] => if Py.truthy (Py.strip l) then [l] else []
      | r => l :: r
      end
  end.

(** The smallest [k] with [line[k] != ' '], if there is one. *)
Fixpoint first_non_blank (line : string) : option nat :=
  match line with
  | EmptyString => None
  | String c s => if Py.is_blank c then option_map S (first_non_blank s)
                  else Some 0
  end.

(** [min] of the generator over several lines; [None] when it is empty. *)
Fixpoint min_first_non_blank (lines : list string) : option nat :=
  match lines with
  | [] => None
  | l :: ls =>
      match first_non_blank l, min_first_non_blank ls with
      | Some a, Some b => Some (Nat.min a b)
      | Some a, None => Some a
      | None, r => r
      end
  end.

(** [min(a, b)] on strings: [b] when [b < a], else [a]. *)
Definition str_min (a b : string) : string :=
  if String.ltb b a then b else a.

(** The line [<?xml version="1.0" encoding="UTF-8"?>]. *)
Definition xml_declaration_line : string :=
  let q := String (ascii_of_nat 34) EmptyString in
  ("<?xml version=" ++ q ++ "1.0" ++ q ++ " encoding=" ++ q ++ "UTF-8"
     ++ q ++ "?>")%string.

Definition tostring_lines (xml_text : string) (spaces_for_tab : nat)
  (xml_declaration : bool) : list string :=
  drop_trailing_blank
    ((if xml_declaration then [xml_declaration_line] else [])
       ++ Py.splitlines (Py.replace_tabs spaces_for_tab xml_text)).

Definition reindent (min_indent : string) (start : Z) (line : string)
  : string :=
  if negb (Py.truthy line) then line
  else if Py.startswith line min_indent then
         if (0 <=? start)%Z then Py.slice_from start line
         else (Py.slice_from start indent ++ line)%string
       else (indent ++ line)%string.

(** [lines[:max_lines] + [child_indent + '...'] * 2 + lines[-1:]] *)
Definition truncate (max_lines : option Z) (child_indent : string)
  (lines : list string) : list string :=
  match max_lines with
  | Some k =>
      if (k + 2 <? Z.of_nat (List.length lines))%Z
      then Py.list_slice_to k lines
             ++ [(child_indent ++ "...")%string; (child_indent ++ "...")%string]
             ++ Py.list_last_slice lines
      else lines
  | None => lines
  end.

(** [last_indent] and [child_indent] of a list of lines. *)
Definition last_indent_of (lines : list string) : option string :=
  option_map Py.spaces (first_non_blank (last lines EmptyString)).

Definition child_indent_of (lines : list string) : option string :=
  if 2 <? List.length lines
  then option_map Py.spaces (min_first_non_blank (Py.list_inner lines))
  else last_indent_of lines.

Definition min_indent_of (lines : list string)
  (child_indent last_indent : string) : string :=
  if 2 <? List.length lines
  then str_min child_indent last_indent else last_indent.

(** The function once [xml_text] is known to be a [str]. *)
Definition tostring_str (xml_text : string) (max_lines : option Z)
  (spaces_for_tab : nat) (xml_declaration : bool) : tostring_result :=
  let lines := tostring_lines xml_text spaces_for_tab xml_declaration in
  match lines with
  | [] => Failed IndexError
  | _ :: _ =>
      match last_indent_of lines with
      | None => Failed ValueError
      | Some last_indent =>
          match child_indent_of lines with
          | None => Failed ValueError
          | Some child_indent =>
              let min_indent :=
                min_indent_of lines child_indent last_indent in
              let start :=
                (Z.of_nat (String.length min_indent)
                 - Z.of_nat (String.length indent))%Z in
              Text (Py.join (String "010" EmptyString)
                      (map (reindent min_indent start)
                         (truncate max_lines child_indent lines)))
          end
      end
  end.

Definition etree_tostring (xml_text : serialized) (max_lines : option Z)
  (spaces_for_tab : nat) (xml_declaration : bool) : tostring_result :=
  match xml_text with
  | Bytes _ => Failed TypeError
  | Str text => tostring_str text max_lines spaces_for_tab xml_declaration
  end.
End Serializer.

(* ================================================================= *)
(** ** Comparator *)

(** The assertion that failed; the text of the message is not modelled. *)
Inductive failure : Type :=
| MoreChildren
| LesserChildren
| TagsDiffer
| AttributeKeysDiffer
| AttributeValueDiffer (k : string)
| ChildrenNumberDiffer
| TextsDiffer
| TailsDiffer.

(** How a call of [etree_elements_assert_equal] ends.  An assertion error
    names the two nodes of its message by their identities.  The other
    exceptions are [TypeError] (a message with [{!r}] fields given to [%],
    or a function used as a name), [AttributeError] ([None.strip()]),
    [KeyError] ([d[k]] without the key), and those of a replacement
    template. *)
Inductive outcome : Type :=
| Pass
| AssertionError (why : failure) (e1 e2 : nat)
| Raised (e : exception).

Definition and_then (o k : outcome) : outcome :=
  match o with Pass => k | _ => o end.

Notation "o ;; k" := (and_then o k) (at level 61, right associativity).

Section Comparator.
Context {Q : QNames} {F : Floats} {R : Regex}.
Variables strict skip_comments unordered : bool.

(** [assert float(a1) == float(a2)] inside [try], as a test. *)
Definition float_equal (a1 a2 : string) : bool :=
  match float a1, float a2 with
  | Some x, Some y => float_eqb x y
  | _, _ => false
  end.

(** The key of the two [sorted] calls. *)
Definition sort_key (x : Element) : string :=
  match tag x with Factory _ => EmptyString | Name s => s end.

Definition ordered (cs : list Element) : list Element :=
  if unordered then Py.sorted sort_key cs else cs.

(** The tag test, with the value of [namespace] after it.  Outside the
    strict mode [get_namespace] is called on the tag of [e1], then
    [get_qname] on the tag of [e1] and on the tag of [e2]; the first of
    these calls that raises ends the test. *)
Definition check_tag (elem e1 e2 : Element) (namespace : string)
  : outcome * string :=
  if strict || is_ e1 elem then
    (if tag_eqb (tag e1) (tag e2) then Pass
     else AssertionError TagsDiffer (eid e1) (eid e2),
     namespace)
  else
    match tag_namespace (tag e1) with
    | None => (Raised TypeError, namespace)
    | Some uri =>
        let namespace := if Py.truthy uri then uri else namespace in
        (match tag_qname namespace (tag e1) with
         | None => Raised TypeError
         | Some q1 =>
             match tag_qname namespace (tag e2) with
             | None => Raised TypeError
             | Some q2 =>
                 if tag_eqb q1 q2 then Pass
                 else AssertionError TagsDiffer (eid e1) (eid e2)
             end
         end,
         namespace)
    end.

(** [for k in e1.attrib: ...] *)
Fixpoint attrib_loop (e1 e2 : Element) (keys : list string) : outcome :=
  match keys with
  | [] => Pass
  | k :: ks =>
      match Py.dict_get (attrib e1) k, Py.dict_get (attrib e2) k with
      | Some v1, Some v2 =>
          let a1 := Py.strip v1 in
          let a2 := Py.strip v2 in
          if negb (String.eqb a1 a2) && negb (float_equal a1 a2)
          then AssertionError (AttributeValueDiffer k) (eid e1) (eid e2)
          else attrib_loop e1 e2 ks
      | _, _ => Raised KeyError
      end
  end.

(** In the strict mode the message is written with [{!r}] fields and
    formatted with [%], which finds no conversion for its four arguments
    and raises [TypeError] before the [AssertionError] is built. *)
Definition check_attrib (e1 e2 : Element) : outcome :=
  if negb (Py.dict_eqb (attrib e1) (attrib e2)) then
    if strict then Raised TypeError
    else if negb (Py.list_string_eqb
                    (Py.sorted (fun k => k) (Py.dict_keys (attrib e1)))
                    (Py.sorted (fun k => k) (Py.dict_keys (attrib e2))))
         then AssertionError AttributeKeysDiffer (eid e1) (eid e2)
         else attrib_loop e1 e2 (Py.dict_keys (attrib e1))
  else Pass.

Definition count_children (e : Element) : nat :=
  if skip_comments
  then List.length (filter (fun c => negb (callable (tag c))) (children e))
  else List.length (children e).

Definition check_children_number (e1 e2 : Element) : outcome :=
  if count_children e1 =? count_children e2 then Pass
  else AssertionError ChildrenNumberDiffer (eid e1) (eid e2).

(** [assert not s.strip(), message] *)
Definition assert_blank (s : string) (why : failure) (e1 e2 : Element)
  : outcome :=
  if Py.truthy (Py.strip s) then AssertionError why (eid e1) (eid e2)
  else Pass.

(** [_REGEX_SPACES.sub(repl, s)]: the replacement is the first argument
    and the subject the second. *)
Definition _REGEX_SPACES_sub (repl s : string) : exception + string :=
  match compile_template repl with
  | inl e => inl e
  | inr expand => inr (Py.regex_spaces_sub expand EmptyString s)
  end.

(** The two calls of [sub] are made from left to right. *)
Definition check_text (e1 e2 : Element) : outcome :=
  if negb (Py.option_string_eqb (text e1) (text e2)) then
    if strict then AssertionError TextsDiffer (eid e1) (eid e2)
    else match text e1, text e2 with
         | None, Some t2 => assert_blank t2 TextsDiffer e1 e2
         | None, None => Raised AttributeError
         | Some t1, None => assert_blank t1 TextsDiffer e1 e2
         | Some t1, Some t2 =>
             match _REGEX_SPACES_sub (Py.strip t1) EmptyString with
             | inl e => Raised e
             | inr s1 =>
                 match _REGEX_SPACES_sub (Py.strip t2) EmptyString with
                 | inl e => Raised e
                 | inr s2 =>
                     if negb (String.eqb s1 s2) then
                       if float_equal (Py.strip t1) (Py.strip t2) then Pass
                       else AssertionError TextsDiffer (eid e1) (eid e2)
                     else Pass
                 end
             end
         end
  else Pass.

(** The second [elif] reads [e2.text], as the source does. *)
Definition check_tail (e1 e2 : Element) : outcome :=
  if negb (Py.option_string_eqb (tail e1) (tail e2)) then
    if strict then AssertionError TailsDiffer (eid e1) (eid e2)
    else match tail e1 with
         | None =>
             match tail e2 with
             | Some t2 => assert_blank t2 TailsDiffer e1 e2
             | None => Raised AttributeError
             end
         | Some t1 =>
             match text e2 with
             | None => assert_blank t1 TailsDiffer e1 e2
             | Some _ =>
                 match tail e2 with
                 | Some t2 =>
                     if String.eqb (Py.strip t1) (Py.strip t2) then Pass
                     else AssertionError TailsDiffer (eid e1) (eid e2)
                 | None => Raised AttributeError
                 end
             end
         end
  else Pass.

Section Loop.
(** The recursive call; [None] when the recursion budget is spent. *)
Variable rec : Element -> Element -> option outcome.
Variables elem other : Element.

(** The loop [for e1 in children] and the final test of
    [other_children]; the list [other_children] is what the iterator
    has not yielded yet. *)
Fixpoint compare_children (namespace : string)
  (children other_children : list Element) : option outcome :=
  match children with
  | [] =>
      match other_children with
      | [] => Some Pass
      | _ :: _ => Some (AssertionError LesserChildren (eid elem) (eid other))
      end
  | e1 :: rest =>
      if skip_comments && callable (tag e1)
      then compare_children namespace rest other_children
      else
        match other_children with
        | [] => Some (AssertionError MoreChildren (eid elem) (eid other))
        | e2 :: others =>
            let (tags, namespace) := check_tag elem e1 e2 namespace in
            match tags ;; check_attrib e1 e2 ;; check_children_number e1 e2
                  ;; check_text e1 e2 ;; check_tail e1 e2 with
            | Pass =>
                match rec e1 e2 with
                | Some Pass => compare_children namespace rest others
                | r => r
                end
            | failed => Some failed
            end
        end
  end.
End Loop.

(** The function with a bound on the depth of the recursion. *)
Fixpoint assert_equal_upto (depth : nat) (elem other : Element)
  : option outcome :=
  match depth with
  | O => None
  | S d =>
      compare_children (assert_equal_upto d) elem other EmptyString
        (ordered (children elem)) (ordered (children other))
  end.

End Comparator.

(** The recursion goes from a node to one of its children, so the height of
    [elem] bounds its depth. *)
Definition etree_elements_assert_equal {Q : QNames} {F : Floats}
  {R : Regex} (elem other : Element)
  (strict skip_comments unordered : bool) : option outcome :=
  assert_equal_upto strict skip_comments unordered (height elem) elem other.

(* ================================================================= *)
(** ** Pruner *)

Definition set_children (e : Element) (cs : list Element) : Element :=
  mkElement (eid e) (tag e) (attrib e) (text e) (tail e) cs.

Section Pruner.
Variable selector : Element -> bool.

(** [elem.remove(child)]: the first item that is the object [child] goes.
    The loop below only removes items of the list it copied. *)
Fixpoint remove (child : Element) (cs : list Element) : list Element :=
  match cs with
  | [] => []
  | c :: cs' => if is_ c child then cs' else c :: remove child cs'
  end.

(** [for child in elem[:]: if selector(child): elem.remove(child)], from
    the copy [snapshot] and the current children [cs]. *)
Fixpoint remove_selected (snapshot cs : list Element) : list Element :=
  match snapshot with
  | [] => cs
  | child :: rest =>
      remove_selected rest (if selector child then remove child cs else cs)
  end.

(** [_prune_subtree(elem)], returning the node as the call leaves it.  The
    recursion goes from a node to its children; [depth] bounds it. *)
Fixpoint _prune_subtree (depth : nat) (elem : Element) : Element :=
  match depth with
  | O => elem
  | S d =>
      let kept := remove_selected (children elem) (children elem) in
      set_children elem (map (_prune_subtree d) kept)
  end.

(** The value returned ([Some true] for [True], [None] for [None]) and
    [root] after the call. *)
Definition prune_etree (root : Element) : option bool * Element :=
  if selector root then (Some true, set_children root [])
  else (None, _prune_subtree (height root) root).
End Pruner.

(* ================================================================= *)
(** ** The imported names, from the specification *)

Module SpecQNames.

(** The text before the first ["}"], if there is one. *)
Fixpoint until_brace (s : string) : option string :=
  match s with
  | EmptyString => None
  | String c s' =>
      if Ascii.eqb c "}" then Some EmptyString
      else option_map (String c) (until_brace s')
  end.

(** The text after the first ["}"]. *)
Fixpoint after_brace (s : string) : string :=
  match s with
  | EmptyString => EmptyString
  | String c s' => if Ascii.eqb c "}" then s' else after_brace s'
  end.

(** Modelled from the spec: [get_namespace] of [namespaces.py], which is
    not among the sources.  The namespace of a name written [{uri}local]
    is [uri]; any other name has none, which is the empty string. *)
Definition get_namespace (name : string) : string :=
  match name with
  | String "{" rest =>
      match until_brace rest with Some uri => uri | None => EmptyString end
  | _ => EmptyString
  end.

(** Modelled from the spec: [get_namespace] on a tag that is a function.
    The specification gives the function on names only; it is taken to
    raise the [TypeError] of an operation on strings applied to a
    function. *)
Definition get_namespace_callable (f : factory) : option string := None.

(** Modelled from the spec: [get_qname] of [qnames.py], which is not among
    the sources.  The current namespace is applied to a bare local name,
    and any other name is left as it is. *)
Definition get_qname (uri name : string) : string :=
  match uri, name with
  | EmptyString, _ => name
  | _, EmptyString => name
  | _, String "{" _ => name
  | _, local => ("{" ++ uri ++ "}" ++ local)%string
  end.

(** Modelled from the spec: [get_qname] on a tag that is a function.
    The specification gives the function on names only.  Without a current
    namespace there is nothing to apply and the tag is taken to be left as
    it is; with one, the tag is read as a name, which is taken to raise
    [TypeError]. *)
Definition get_qname_callable (uri : string) (f : factory) : option Tag :=
  match uri with
  | EmptyString => Some (Factory f)
  | String _ _ => None
  end.

(** The first prefix that a mapping binds to [uri]. *)
Fixpoint prefix_of (uri : string) (namespaces : Py.dict) : option string :=
  match namespaces with
  | [] => None
  | (prefix, u) :: rest =>
      if String.eqb u uri then Some prefix else prefix_of uri rest
  end.

(** Modelled from the spec: [get_prefixed_qname] of [qnames.py], which is
    not among the sources.  A tag [{uri}local] is shown as [prefix:local]
    for a prefix bound to [uri], as [local] when that prefix is the empty
    one, and any other tag is shown as it is. *)
Definition get_prefixed_qname (t : Tag) (namespaces : Py.dict) : string :=
  match t with
  | Name (String "{" rest) =>
      match until_brace rest with
      | Some uri =>
          match prefix_of uri namespaces with
          | Some EmptyString => after_brace rest
          | Some prefix => (prefix ++ ":" ++ after_brace rest)%string
          | None => format_s t
          end
      | None => format_s t
      end
  | _ => format_s t
  end.

(** Modelled from the spec: the two attribute names of [qnames.py], which
    is not among the sources: [xsi:schemaLocation] and
    [xsi:noNamespaceSchemaLocation] as expanded names. *)
Definition XSI_SCHEMA_LOCATION : string :=
  "{http://www.w3.org/2001/XMLSchema-instance}schemaLocation".

Definition XSI_NONS_SCHEMA_LOCATION : string :=
  "{http://www.w3.org/2001/XMLSchema-instance}noNamespaceSchemaLocation".

Definition spec_qnames : QNames :=
  Build_QNames get_namespace get_namespace_callable get_qname
    get_qname_callable get_prefixed_qname
    XSI_SCHEMA_LOCATION XSI_NONS_SCHEMA_LOCATION.

End SpecQNames.

(* ================================================================= *)
(** ** Induction on trees *)

Section ElementInduction.
Variable P : Element -> Prop.
Hypothesis step :
  forall i t a x l cs, Forall P cs -> P (mkElement i t a x l cs).

Fixpoint Element_ind (e : Element) : P e :=
  match e with
  | mkElement i t a x l cs =>
      step i t a x l
        ((fix all (cs : list Element) : Forall P cs :=
            match cs with
            | [] => Forall_nil P
            | c :: r => Forall_cons c (Element_ind c) (all r)
            end) cs)
  end.
End ElementInduction.

(* ================================================================= *)
(** ** Examples of trees *)

Module Examples.

(** An element without attributes, text or tail. *)
Definition node (i : nat) (name : string) (cs : list Element) : Element :=
  mkElement i (Name name) [] None None cs.

(** A leaf with the given text and tail. *)
Definition leaf (i : nat) (name : string) (txt tl : option string)
  : Element :=
  mkElement i (Name name) [] txt tl [].

Definition comment (i : nat) (txt : string) : Element :=
  mkElement i (Factory Comment) [] (Some txt) None [].

Definition newline : string := String "010" EmptyString.

(** The serialization of an element [r] with three children, as the
    backend writes it for a node at the second level of an indented
    document: the children at four blanks, the end tag at two. *)
Definition indented_xml : string :=
  ("<r>" ++ newline ++ "    <a />" ++ newline ++ "    <b />" ++ newline
     ++ "    <c />" ++ newline ++ "  </r>")%string.

(** The tree [r] with the child [x], which has the child [y]. *)
Definition tree_rxy : Element :=
  node 0 "r" [node 1 "x" [node 2 "y" []]].

(** The selector of the nodes tagged [x]. *)
Definition tagged_x (e : Element) : bool := tag_eqb (tag e) (Name "x").

(** A root with a comment and then an element as children. *)
Definition commented : Element :=
  node 0 "r" [comment 1 "note"; leaf 2 "a" None None].

End Examples.

(* ================================================================= *)
(** ** Notions used to state the properties *)

(** The whitespace-separated tokens of the attribute [key] of a node; none
    when the node does not carry the attribute. *)
Definition attribute_tokens (key : string) (elem : Element) : list string :=
  match Py.dict_get (attrib elem) key with
  | Some v => Py.split v
  | None => []
  end.

(** How many of the tags [l] are the tag [t]. *)
Fixpoint occurrences (t : Tag) (l : list Tag) : nat :=
  match l with
  | [] => 0
  | x :: r => (if tag_eqb x t then 1 else 0) + occurrences t r
  end.

(** The position qualifier of a child among the children [siblings] of its
    parent, [before] being the children that precede it: [[n]] with [n] the
    rank of the child among the children that carry its tag, when that tag
    occurs more than once among [siblings], and nothing otherwise. *)
Definition position_qualifier (siblings before : list Element)
  (child : Element) : string :=
  if 1 <? occurrences (tag child) (map tag siblings)
  then ("[" ++ Py.format_d (S (occurrences (tag child) (map tag before)))
          ++ "]")%string
  else EmptyString.

(** A path extended by one segment. *)
Definition extend_path (path segment : string) : string :=
  if String.eqb path "/" then ("/" ++ segment)%string
  else if Py.truthy path then (path ++ "/" ++ segment)%string
  else segment.

(** The name of a child as a path shows it. *)
Definition shown_name {Q : QNames} (namespaces : option Py.dict)
  (child : Element) : string :=
  match namespaces with
  | None => format_s (tag child)
  | Some ns => get_prefixed_qname (tag child) ns
  end.

(** The children [cs] that are elements, each with the path that the claim
    on position qualifiers gives it; [before] are the children that come
    before [cs] under the same parent. *)
Fixpoint qualified_children {Q : QNames} (path : string)
  (namespaces : option Py.dict) (siblings before cs : list Element)
  : list (Element * string) :=
  match cs with
  | [] => []
  | child :: rest =>
      (if callable (tag child) then []
       else [(child,
              (extend_path path (shown_name namespaces child)
                 ++ position_qualifier siblings before child)%string)])
        ++ qualified_children path namespaces siblings (before ++ [child]) rest
  end.

(** The count that a counter holds for a tag, [c[t]]. *)
Definition count_of (c : counter) (t : Tag) : nat :=
  match counter_get c t with Some n => n | None => 0 end.

(** The tag filter after ["*"] has been read as no filter. *)
Definition effective_filter (tag_filter : option Tag) : option Tag :=
  match tag_filter with
  | Some (Name "*") => None
  | _ => tag_filter
  end.

(** What [etree_iterpath] yields for the node it is called on. *)
Definition emitted (tag_filter : option Tag) (elem : Element)
  (path : string) : list (Element * string) :=
  match effective_filter tag_filter with
  | None => [(elem, path)]
  | Some t => if tag_eqb (tag elem) t then [(elem, path)] else []
  end.

(** What a node carries by itself. *)
Definition own_data (e : Element)
  : nat * Tag * Py.dict * option string * option string :=
  (eid e, tag e, attrib e, text e, tail e).

Section PrunerNotions.
Variable selector : Element -> bool.

Section Kept.
Variables (B : Type) (f : Element -> B) (g : Element -> list B).

(** [f] on the children that do not pass the selector. *)
Fixpoint map_kept (cs : list Element) : list B :=
  match cs with
  | [] => []
  | c :: r => if selector c then map_kept r else f c :: map_kept r
  end.

Fixpoint flat_map_kept (cs : list Element) : list B :=
  match cs with
  | [] => []
  | c :: r => if selector c then flat_map_kept r else g c ++ flat_map_kept r
  end.
End Kept.

(** The tree in which every node has lost the children that pass the
    selector, the other children being pruned in the same way. *)
Fixpoint pruned (e : Element) : Element :=
  set_children e (map_kept pruned (children e)).

(** The nodes reached from a node through children that do not pass the
    selector, in document order. *)
Fixpoint survivors (e : Element) : list Element :=
  e :: flat_map_kept survivors (children e).

(** The same nodes as a relation: [kept_from root n] when a chain of
    children that do not pass the selector leads from [root] to [n]. *)
Inductive kept_from (root : Element) : Element -> Prop :=
| kept_root : kept_from root root
| kept_child (p c : Element) :
    kept_from root p -> In c (children p) -> selector c = false ->
    kept_from root c.

End PrunerNotions.

(** The nodes that [etree_iterpath] visits: the node it is called on and,
    in document order, what it visits from every child whose tag is not
    callable. *)
Definition elements (e : Element) : list Element :=
  survivors (fun c => callable (tag c)) e.

(** The test that a tag filter makes on a node. *)
Definition passes_filter (tag_filter : option Tag) (e : Element) : bool :=
  match effective_filter tag_filter with
  | None => true
  | Some t => tag_eqb (tag e) t
  end.

(** The path that [etree_getpath] starts from. *)
Definition base_path {Q : QNames} (root : Element)
  (namespaces : option Py.dict) (relative : bool) : string :=
  if relative then "."
  else match namespaces with
       | Some ((_ :: _) as ns) =>
           ("/" ++ get_prefixed_qname (tag root) ns)%string
       | _ => ("/" ++ format_s (tag root))%string
       end.

(** No two children of a node of the tree that are elements carry the same
    tag. *)
Definition distinct_sibling_tags (root : Element) : Prop :=
  forall n c,
    In n (nodes root) -> In c (children n) -> callable (tag c) = false ->
    occurrences (tag c) (map tag (children n)) <= 1.

(** A string without space characters. *)
Definition spaceless (s : string) : Prop :=
  forall c, In c (list_ascii_of_string s) -> Py.is_space c = false.

Section Pairwise.
Variable f : Element -> Element -> bool.

(** Two lists of the same length whose items pass [f] pair by pair. *)
Fixpoint forall2b (cs os : list Element) : bool :=
  match cs, os with
  | [], [] => true
  | c :: cs', o :: os' => f c o && forall2b cs' os'
  | _, _ => false
  end.
End Pairwise.

(** Two subtrees with the same tag, attributes, text and tail at their
    roots and, pair by pair and in document order, the same subtrees below:
    equality of what two nodes hold, their identities put aside. *)
Fixpoint same_tree (e1 e2 : Element) {struct e1} : bool :=
  tag_eqb (tag e1) (tag e2)
  && Py.dict_eqb (attrib e1) (attrib e2)
  && Py.option_string_eqb (text e1) (text e2)
  && Py.option_string_eqb (tail e1) (tail e2)
  && forall2b (fun c o => same_tree c o) (children e1) (children e2).

(** The children of a node that the comparator does not skip on the left. *)
Definition compared_children (skip_comments : bool) (e : Element)
  : list Element :=
  filter (fun c => negb (skip_comments && callable (tag c))) (children e).

(** An implementation of [Floats] for the examples.  [float] reads the
    numerals made of an optional sign, digits and an optional fractional
    part, and their values are compared exactly.  Python reads more
    (exponents, infinities, NaN, digit separators) and rounds to 53 bits;
    none of this is modelled here, and no theorem depends on this
    implementation: they are stated for every one. *)
Module Decimals.

Definition digit (c : ascii) : option N :=
  let n := nat_of_ascii c in
  if (48 <=? n) && (n <=? 57) then Some (N.of_nat (n - 48)) else None.

(** The digits at the head of a string: their value after [acc], their
    number, and what follows them. *)
Fixpoint digits (acc : N) (s : string) : N * nat * string :=
  match s with
  | EmptyString => (acc, 0, EmptyString)
  | String c s' =>
      match digit c with
      | Some d =>
          let '(v, n, rest) := digits (acc * 10 + d)%N s' in (v, S n, rest)
      | None => (acc, 0, s)
      end
  end.

(** A numeral: its sign, its digits as a number, and how many of them
    follow the point. *)
Definition numeral : Type := bool * N * nat.

Definition unsigned (s : string) : option (N * nat) :=
  let '(v, n, rest) := digits 0 s in
  match rest with
  | EmptyString => if 0 <? n then Some (v, 0) else None
  | String "." frac =>
      let '(w, m, rest') := digits v frac in
      match rest' with
      | EmptyString => if 0 <? n + m then Some (w, m) else None
      | String _ _ => None
      end
  | String _ _ => None
  end.

Definition float (s : string) : option numeral :=
  match Py.strip s with
  | String "-" s' => option_map (fun vn => (true, fst vn, snd vn)) (unsigned s')
  | String "+" s' => option_map (fun vn => (false, fst vn, snd vn)) (unsigned s')
  | s' => option_map (fun vn => (false, fst vn, snd vn)) (unsigned s')
  end.

Definition float_eqb (x y : numeral) : bool :=
  let '(sx, vx, nx) := x in
  let '(sy, vy, ny) := y in
  (vx * 10 ^ N.of_nat ny =? vy * 10 ^ N.of_nat nx)%N
  && ((vx =? 0)%N || Bool.eqb sx sy).

Definition decimals : Floats := Build_Floats float float_eqb.

End Decimals.

(** An implementation of [Regex] for the examples, which use replacements
    without backslash only.  It takes such a replacement as it is, as
    [re] does, and refuses every other one, where [re] accepts the
    escapes it knows; no theorem depends on this implementation: they are
    stated for every one. *)
Module Literals.

Definition compile_template (repl : string)
  : exception + (string -> string) :=
  if Py.has_backslash repl then inl re_error else inr (fun _ => repl).

Lemma literal_accepted (repl : string) :
  Py.has_backslash repl = false ->
  compile_template repl = inr (fun _ => repl).
Proof. unfold compile_template. now intros ->. Qed.

Lemma escape_refused (repl : string) (e : exception) :
  compile_template repl = inl e -> e = re_error \/ e = IndexError.
Proof.
  unfold compile_template. destruct (Py.has_backslash repl); [|discriminate].
  intros H. left. now inversion H.
Qed.

Definition literals : Regex :=
  Build_Regex compile_template literal_accepted escape_refused.

End Literals.

(** The exceptions that a comparison can end with, besides
    [AssertionError]: [TypeError] in both modes and, outside the strict
    mode, [AttributeError] and the two exceptions of a replacement
    template. *)
Definition may_raise (strict : bool) (e : exception) : Prop :=
  e = TypeError
  \/ (strict = false
      /\ (e = AttributeError \/ e = re_error \/ e = IndexError)).

(** A selector that looks at what a node carries by itself (its identity,
    tag, attributes, text and tail) and not at its children. *)
Definition own_data_selector (selector : Element -> bool) : Prop :=
  forall a b, own_data a = own_data b -> selector a = selector b.

(* ================================================================= *)
(** * Properties *)

(** ** Basic facts *)

Lemma factory_eqb_eq (f g : factory) : factory_eqb f g = true <-> f = g.
Proof. destruct f, g; simpl; split; congruence. Qed.

Lemma tag_eqb_eq (t1 t2 : Tag) : tag_eqb t1 t2 = true <-> t1 = t2.
Proof.
  destruct t1 as [a|f], t2 as [b|g]; simpl.
  - rewrite String.eqb_eq. split; congruence.
  - split; congruence.
  - split; congruence.
  - rewrite factory_eqb_eq. split; congruence.
Qed.

Lemma tag_eqb_refl (t : Tag) : tag_eqb t t = true.
Proof. now apply tag_eqb_eq. Qed.

Lemma tag_eqb_neq (t1 t2 : Tag) : tag_eqb t1 t2 = false <-> t1 <> t2.
Proof.
  rewrite <- tag_eqb_eq. destruct (tag_eqb t1 t2); split; congruence.
Qed.

Lemma option_string_eqb_refl (o : option string) :
  Py.option_string_eqb o o = true.
Proof. destruct o; simpl; [apply String.eqb_refl | reflexivity]. Qed.

Lemma height_child (e c : Element) :
  In c (children e) -> height c < height e.
Proof.
  destruct e as [i t a x l cs]; simpl.
  induction cs as [|d cs IH]; simpl; [tauto|].
  intros [->|H]; [lia|]. specialize (IH H). lia.
Qed.

Lemma nodes_self (e : Element) : In e (nodes e).
Proof. destruct e; simpl; auto. Qed.

Lemma nodes_child (e c n : Element) :
  In c (children e) -> In n (nodes c) -> In n (nodes e).
Proof.
  intros Hc Hn. destruct e as [i t a x l cs]; simpl in *.
  right. apply in_flat_map. eauto.
Qed.

Lemma nodes_trans (e : Element) :
  forall m n, In m (nodes e) -> In n (nodes m) -> In n (nodes e).
Proof.
  induction e as [i t a x l cs IH] using Element_ind.
  intros m n Hm Hn. simpl in Hm. destruct Hm as [<-|Hm]; [exact Hn|].
  apply in_flat_map in Hm. destruct Hm as (c & Hc & Hm).
  rewrite Forall_forall in IH.
  apply nodes_child with c; [exact Hc|]. eapply IH; eauto.
Qed.

(* ================================================================= *)
(** ** Comparator: the tests on one pair *)

Section ComparatorFacts.
Context {Q : QNames} {F : Floats} {R : Regex}.

(** With the empty string as its subject, the substitution has nothing to
    replace: it returns the empty string whenever the replacement is
    accepted. *)
Lemma regex_spaces_sub_empty (repl : string) :
  _REGEX_SPACES_sub repl EmptyString = inr EmptyString
  \/ exists e, _REGEX_SPACES_sub repl EmptyString = inl e
                /\ (e = re_error \/ e = IndexError).
Proof.
  unfold _REGEX_SPACES_sub.
  destruct (compile_template repl) as [e|expand] eqn:E.
  - right. exists e. split; [reflexivity|].
    now apply template_exceptions with repl.
  - left. reflexivity.
Qed.

Lemma regex_spaces_sub_literal (repl : string) :
  Py.has_backslash repl = false ->
  _REGEX_SPACES_sub repl EmptyString = inr EmptyString.
Proof.
  intros H. unfold _REGEX_SPACES_sub. now rewrite template_literal.
Qed.

(** Two texts that are both present never fail the non-strict test with
    an assertion error, whatever they are: when both replacements are
    accepted, both sides of the comparison in [check_text] are the empty
    string, so that the numeric comparison is never reached. *)
Lemma check_text_both_present (e1 e2 : Element) (t1 t2 : string) :
  text e1 = Some t1 -> text e2 = Some t2 ->
  check_text false e1 e2 = Pass
  \/ exists e, check_text false e1 e2 = Raised e
                /\ (e = re_error \/ e = IndexError).
Proof.
  intros H1 H2. unfold check_text. rewrite H1, H2.
  destruct (negb _); [|now left]. cbn [negb].
  destruct (regex_spaces_sub_empty (Py.strip t1)) as [->|(e & -> & He)];
    [|right; eauto].
  destruct (regex_spaces_sub_empty (Py.strip t2)) as [->|(e & -> & He)];
    [|right; eauto].
  now left.
Qed.

(** Two texts without backslash that are both present pass it. *)
Lemma check_text_literal (e1 e2 : Element) (t1 t2 : string) :
  text e1 = Some t1 -> text e2 = Some t2 ->
  Py.has_backslash (Py.strip t1) = false ->
  Py.has_backslash (Py.strip t2) = false ->
  check_text false e1 e2 = Pass.
Proof.
  intros H1 H2 B1 B2. unfold check_text. rewrite H1, H2.
  destruct (negb _); [|reflexivity]. cbn [negb].
  now rewrite !regex_spaces_sub_literal.
Qed.

(** The non-strict test on two tails that differ, branch by branch.  An
    absent left tail asks for a blank right tail.  A present left tail is
    asked to be blank when the right text is absent, whatever the right
    tail is; with a right text it is compared, once trimmed, with the right
    tail when there is one, and [None.strip()] fails otherwise. *)
Lemma check_tail_non_strict (e1 e2 : Element) :
  Py.option_string_eqb (tail e1) (tail e2) = false ->
  check_tail false e1 e2
  = match tail e1, text e2, tail e2 with
    | None, _, Some t2 => assert_blank t2 TailsDiffer e1 e2
    | None, _, None => Raised AttributeError
    | Some t1, None, _ => assert_blank t1 TailsDiffer e1 e2
    | Some t1, Some _, Some t2 =>
        if String.eqb (Py.strip t1) (Py.strip t2) then Pass
        else AssertionError TailsDiffer (eid e1) (eid e2)
    | Some _, Some _, None => Raised AttributeError
    end.
Proof.
  intros H. unfold check_tail. rewrite H. cbn [negb].
  destruct (tail e1), (text e2), (tail e2); reflexivity.
Qed.

(** Two nodes with the same tag pass the tag test, in the strict mode or
    when the tag is a name. *)
Lemma check_tag_same (strict : bool) (elem e1 e2 : Element) (ns : string) :
  tag e1 = tag e2 -> strict = true \/ callable (tag e1) = false ->
  fst (check_tag strict elem e1 e2 ns) = Pass.
Proof.
  intros H Hs. unfold check_tag. rewrite <- H.
  destruct (strict || is_ e1 elem) eqn:E; cbn [fst];
    [now rewrite tag_eqb_refl|].
  destruct Hs as [->|Hc]; [discriminate E|].
  destruct (tag e1) as [name|f]; [|discriminate Hc].
  cbn [tag_namespace tag_qname fst]. now rewrite tag_eqb_refl.
Qed.

(** A pair of nodes without children, attributes and tail that carry the
    same name passes every test but, possibly, the one on texts. *)
Lemma compare_leaves (strict skip : bool)
  (rec : Element -> Element -> option outcome) (elem other : Element)
  (ns name : string) (i1 i2 : nat) (x1 x2 tl1 tl2 : option string) :
  let e1 := Examples.leaf i1 name x1 tl1 in
  let e2 := Examples.leaf i2 name x2 tl2 in
  rec e1 e2 = Some Pass ->
  compare_children strict skip rec elem other ns [e1] [e2]
  = Some (check_text strict e1 e2 ;; check_tail strict e1 e2).
Proof.
  intros e1 e2 Hrec. simpl.
  rewrite andb_false_r.
  pose proof (@check_tag_same strict elem e1 e2 ns eq_refl
                (or_intror eq_refl)) as Ht.
  destruct (check_tag strict elem e1 e2 ns) as [o ns']. simpl in Ht.
  subst o. unfold check_attrib, check_children_number, count_children.
  simpl. destruct skip; simpl.
  - destruct (check_text strict e1 e2); simpl; try reflexivity.
    destruct (check_tail strict e1 e2); simpl; try reflexivity.
    now rewrite Hrec.
  - destruct (check_text strict e1 e2); simpl; try reflexivity.
    destruct (check_tail strict e1 e2); simpl; try reflexivity.
    now rewrite Hrec.
Qed.

End ComparatorFacts.

(* ================================================================= *)
(** ** Comparator: the claims *)

Section ComparatorClaims.
Context {Q : QNames} {F : Floats} {R : Regex}.

Lemma ordered_single (unordered : bool) (e : Element) :
  ordered unordered [e] = [e].
Proof. destruct unordered; reflexivity. Qed.

Lemma ordered_nil (unordered : bool) : ordered unordered [] = [].
Proof. destruct unordered; reflexivity. Qed.

Lemma assert_equal_upto_S (strict skip unordered : bool) (d : nat)
  (elem other : Element) :
  assert_equal_upto strict skip unordered (S d) elem other
  = compare_children strict skip
      (assert_equal_upto strict skip unordered d) elem other EmptyString
      (ordered unordered (children elem))
      (ordered unordered (children other)).
Proof. reflexivity. Qed.

(** A call on two nodes without children passes once the recursion has
    any budget. *)
Lemma assert_equal_upto_childless (strict skip unordered : bool) (d : nat)
  (e1 e2 : Element) :
  children e1 = [] -> children e2 = [] ->
  assert_equal_upto strict skip unordered (S d) e1 e2 = Some Pass.
Proof.
  intros H1 H2. rewrite assert_equal_upto_S, H1, H2, ordered_nil.
  reflexivity.
Qed.

(** Two roots whose only child is a leaf [c]: the call is decided by the
    texts and the tails of the two leaves, and the roots are not looked
    at. *)
Lemma assert_equal_one_leaf (strict skip unordered : bool)
  (i1 i2 : nat) (r1 r2 : string) (x1 x2 tl1 tl2 : option string) :
  let e1 := Examples.leaf 1 "c" x1 tl1 in
  let e2 := Examples.leaf 3 "c" x2 tl2 in
  etree_elements_assert_equal
    (Examples.node i1 r1 [e1]) (Examples.node i2 r2 [e2])
    strict skip unordered
  = Some (check_text strict e1 e2 ;; check_tail strict e1 e2).
Proof.
  intros e1 e2. unfold etree_elements_assert_equal.
  change (height (Examples.node i1 r1 [e1])) with 2.
  rewrite assert_equal_upto_S. cbn [children Examples.node].
  rewrite !ordered_single.
  apply compare_leaves.
  now apply assert_equal_upto_childless.
Qed.

(** C1, at the input of the claim.  Two trees that differ only in the text
    of a child, ["foo"] against ["bar"], compare equal when [strict] is
    false: the call returns without an assertion error, where the claim
    has it raise one.  The arguments of [_REGEX_SPACES.sub] are the text
    and the empty string in this order, so both sides of [!=] are empty. *)
Theorem assert_equal_foo_bar (skip_comments unordered : bool) :
  etree_elements_assert_equal
    (Examples.node 0 "r" [Examples.leaf 1 "c" (Some "foo") None])
    (Examples.node 2 "r" [Examples.leaf 3 "c" (Some "bar") None])
    false skip_comments unordered
  = Some Pass.
Proof.
  rewrite assert_equal_one_leaf.
  rewrite check_text_literal with (t1 := "foo") (t2 := "bar")
    by reflexivity.
  reflexivity.
Qed.

(** With [strict] the same two trees are told apart. *)
Lemma assert_equal_foo_bar_strict (skip_comments unordered : bool) :
  etree_elements_assert_equal
    (Examples.node 0 "r" [Examples.leaf 1 "c" (Some "foo") None])
    (Examples.node 2 "r" [Examples.leaf 3 "c" (Some "bar") None])
    true skip_comments unordered
  = Some (AssertionError TextsDiffer 1 3).
Proof. rewrite assert_equal_one_leaf. reflexivity. Qed.

(** C4, at a failing input.  The tails ["a"] and ["a "] are both present
    and equal once trimmed, and the text of the right node is absent: the
    non-strict comparison raises an assertion error, where the claim has
    it succeed.  The branch taken is the one guarded by [e2.text is None],
    which asks for a blank left tail. *)
Theorem assert_equal_tail_trimmed (skip_comments unordered : bool) :
  etree_elements_assert_equal
    (Examples.node 0 "r" [Examples.leaf 1 "c" None (Some "a")])
    (Examples.node 2 "r" [Examples.leaf 3 "c" None (Some "a ")])
    false skip_comments unordered
  = Some (AssertionError TailsDiffer 1 3).
Proof. rewrite assert_equal_one_leaf. reflexivity. Qed.

(** The same guard lets a present right text send an absent right tail to
    the last branch, where [e2.tail.strip()] fails on [None]: a blank left
    tail against an absent right tail ends in an attribute error. *)
Lemma assert_equal_tail_absent (skip_comments unordered : bool) :
  etree_elements_assert_equal
    (Examples.node 0 "r" [Examples.leaf 1 "c" (Some "x") (Some " ")])
    (Examples.node 2 "r" [Examples.leaf 3 "c" (Some "x") None])
    false skip_comments unordered
  = Some (Raised AttributeError).
Proof. rewrite assert_equal_one_leaf. reflexivity. Qed.

(** With both texts present the two trimmed tails are compared. *)
Lemma assert_equal_tail_trimmed_with_text (skip_comments unordered : bool) :
  etree_elements_assert_equal
    (Examples.node 0 "r" [Examples.leaf 1 "c" (Some "x") (Some "a")])
    (Examples.node 2 "r" [Examples.leaf 3 "c" (Some "x") (Some "a ")])
    false skip_comments unordered
  = Some Pass.
Proof. rewrite assert_equal_one_leaf. reflexivity. Qed.

(** C9.  Two nodes without children compare equal under every
    combination of the flags, whatever their identities, tags,
    attributes, texts and tails: only pairs of children are tested. *)
Theorem assert_equal_childless (strict skip_comments unordered : bool)
  (i1 i2 : nat) (t1 t2 : Tag) (a1 a2 : Py.dict)
  (x1 x2 l1 l2 : option string) :
  etree_elements_assert_equal
    (mkElement i1 t1 a1 x1 l1 []) (mkElement i2 t2 a2 x2 l2 [])
    strict skip_comments unordered
  = Some Pass.
Proof.
  unfold etree_elements_assert_equal.
  now apply assert_equal_upto_childless.
Qed.

(** C3, at a failing input.  The roots [a] and [b] of the two arguments
    differ in their tags and nothing else differs: the non-strict call
    returns without an error, where the claim has the tags of the
    top-level pair compared by exact match.  The test [e1 is elem] of the
    source is made on the children of [elem], none of which is [elem]. *)
Theorem assert_equal_root_tags (skip_comments unordered : bool) :
  etree_elements_assert_equal
    (Examples.node 0 "a" [Examples.leaf 1 "c" None None])
    (Examples.node 2 "b" [Examples.leaf 3 "c" None None])
    false skip_comments unordered
  = Some Pass.
Proof. rewrite assert_equal_one_leaf. reflexivity. Qed.

(** The strict call passes on the same two trees, for the same reason. *)
Lemma assert_equal_root_tags_strict (skip_comments unordered : bool) :
  etree_elements_assert_equal
    (Examples.node 0 "a" [Examples.leaf 1 "c" None None])
    (Examples.node 2 "b" [Examples.leaf 3 "c" None None])
    true skip_comments unordered
  = Some Pass.
Proof. rewrite assert_equal_one_leaf. reflexivity. Qed.

(** C2, at a failing input.  A tree whose root has a comment and then an
    element [a] as children, compared with itself under the default flags
    ([strict] and [skip_comments] set): the comment is skipped on the left
    only, [a] is paired with the comment, and the call raises an assertion
    error on their tags, where the claim has it succeed. *)
Theorem assert_equal_comment_not_reflexive (unordered : bool) :
  etree_elements_assert_equal Examples.commented Examples.commented
    true true unordered
  = Some (AssertionError TagsDiffer 2 1).
Proof. destruct unordered; reflexivity. Qed.

(** When the comment comes last it is left over on the right. *)
Lemma assert_equal_trailing_comment (strict : bool) :
  let t := Examples.node 0 "r"
             [Examples.leaf 1 "a" None None; Examples.comment 2 "note"] in
  etree_elements_assert_equal t t strict true false
  = Some (AssertionError LesserChildren 0 0).
Proof.
  intros t. unfold etree_elements_assert_equal, t.
  change (height _) with 2. rewrite assert_equal_upto_S.
  cbn [children Examples.node ordered].
  cbn [compare_children]. cbn [Examples.leaf Examples.comment tag callable].
  rewrite andb_false_r.
  pose proof (@check_tag_same _ strict
    (mkElement 0 (Name "r") [] None None
       [mkElement 1 (Name "a") [] None None [];
        mkElement 2 (Factory Comment) [] (Some "note") None []])
    (mkElement 1 (Name "a") [] None None [])
    (mkElement 1 (Name "a") [] None None []) EmptyString eq_refl
    (or_intror eq_refl)) as Ht.
  destruct (check_tag _ _ _ _ _) as [o ns]. simpl in Ht. subst o.
  destruct strict; reflexivity.
Qed.

End ComparatorClaims.

(* ================================================================= *)
(** ** Comparator: termination, and where a tree equals itself *)

Lemma insert_sorted_In (A : Type) (key : A -> string) (x y : A)
  (l : list A) :
  In x (Py.insert_sorted key y l) <-> y = x \/ In x l.
Proof.
  induction l as [|z l IH]; simpl; [tauto|].
  destruct (String.ltb (key z) (key y)); simpl; [rewrite IH|]; tauto.
Qed.

Lemma sorted_In (A : Type) (key : A -> string) (x : A) (l : list A) :
  In x (Py.sorted key l) <-> In x l.
Proof.
  induction l as [|y l IH]; simpl; [tauto|].
  rewrite insert_sorted_In, IH. tauto.
Qed.

Lemma dict_get_In (d : Py.dict) (k v : string) :
  NoDup (Py.dict_keys d) -> In (k, v) d -> Py.dict_get d k = Some v.
Proof.
  unfold Py.dict_keys.
  induction d as [|[k' v'] d IH]; simpl; [tauto|].
  intros Hnd [Heq|Hin].
  - inversion Heq; subst. now rewrite String.eqb_refl.
  - inversion Hnd as [|? ? Hk Hnd']; subst.
    destruct (String.eqb k' k) eqn:E.
    + apply String.eqb_eq in E. subst k'.
      exfalso. apply Hk. change k with (fst (k, v)). now apply in_map.
    + now apply IH.
Qed.

Lemma dict_eqb_refl (d : Py.dict) :
  NoDup (Py.dict_keys d) -> Py.dict_eqb d d = true.
Proof.
  intros Hnd. unfold Py.dict_eqb. rewrite Nat.eqb_refl. simpl.
  apply forallb_forall. intros [k v] Hin. simpl.
  rewrite (@dict_get_In d k v Hnd Hin). simpl. apply String.eqb_refl.
Qed.

(** In a tree, a child is not the object that its parent is: the test
    [e1 is elem] of the comparator is made on the children of [elem]. *)
Lemma child_is_not_parent (elem e1 : Element) :
  well_formed elem -> In e1 (children elem) -> is_ e1 elem = false.
Proof.
  unfold well_formed, is_. intros Hwf Hin. apply Nat.eqb_neq. intros Heq.
  destruct elem as [i t a x l cs]. cbn [nodes map eid children] in *.
  apply NoDup_cons_iff in Hwf. destruct Hwf as [Hhead _]. apply Hhead.
  rewrite <- Heq. apply in_map. apply in_flat_map.
  exists e1. split; [exact Hin | apply nodes_self].
Qed.

Section ComparatorGeneral.
Context {Q : QNames} {F : Floats} {R : Regex}.
Variables strict skip_comments unordered : bool.

Lemma ordered_In (x : Element) (cs : list Element) :
  In x (ordered unordered cs) <-> In x cs.
Proof. unfold ordered. destruct unordered; [apply sorted_In | tauto]. Qed.

Lemma compare_children_total
  (rec : Element -> Element -> option outcome) (elem other : Element)
  (cs : list Element) :
  (forall e1 e2, In e1 cs -> exists o, rec e1 e2 = Some o) ->
  forall ns os,
  exists o,
    compare_children strict skip_comments rec elem other ns cs os = Some o.
Proof.
  induction cs as [|e1 cs IH]; intros Hrec ns os; simpl.
  - destruct os; eauto.
  - assert (Hcs : forall a b, In a cs -> exists o, rec a b = Some o)
      by (intros; apply Hrec; now right).
    destruct (skip_comments && callable (tag e1)); [now apply IH|].
    destruct os as [|e2 os]; [eauto|].
    destruct (check_tag strict elem e1 e2 ns) as [o ns'].
    destruct (o ;; _); eauto.
    destruct (Hrec e1 e2 (or_introl eq_refl)) as [r Hr]. rewrite Hr.
    destruct r; eauto.
Qed.

Lemma assert_equal_upto_total (d : nat) :
  forall elem other,
    height elem <= d ->
    exists o,
      assert_equal_upto strict skip_comments unordered d elem other = Some o.
Proof.
  induction d as [|d IH]; intros elem other Hh.
  - destruct elem; simpl in Hh; lia.
  - simpl. apply compare_children_total.
    intros e1 e2 Hin. apply IH.
    apply (proj1 (ordered_In _ _)) in Hin. apply height_child in Hin. lia.
Qed.

(** The loop reads the two arguments of the call for their identities
    only. *)
Lemma compare_children_roots
  (rec : Element -> Element -> option outcome)
  (elem other elem' other' : Element) (cs : list Element) :
  eid elem = eid elem' -> eid other = eid other' ->
  forall ns os,
    compare_children strict skip_comments rec elem other ns cs os
    = compare_children strict skip_comments rec elem' other' ns cs os.
Proof.
  intros He Ho. induction cs as [|e1 cs IH]; intros ns os; simpl.
  - now rewrite He, Ho.
  - destruct (skip_comments && callable (tag e1)); [apply IH|].
    destruct os as [|e2 os]; [now rewrite He, Ho|].
    assert (Ht : check_tag strict elem e1 e2 ns
                 = check_tag strict elem' e1 e2 ns)
      by (unfold check_tag, is_; now rewrite He).
    rewrite Ht. destruct (check_tag strict elem' e1 e2 ns) as [o n1].
    destruct (o ;; _); try reflexivity.
    destruct (rec e1 e2) as [[]|]; try reflexivity. apply IH.
Qed.

(** X20.  Of its two arguments the call reads the children and the
    identities: the tags, attributes, texts and tails of the two top-level
    nodes play no part in the result. *)
Lemma etree_elements_assert_equal_roots (elem other elem' other' : Element) :
  eid elem = eid elem' -> children elem = children elem' ->
  eid other = eid other' -> children other = children other' ->
  etree_elements_assert_equal elem other strict skip_comments unordered
  = etree_elements_assert_equal elem' other' strict skip_comments unordered.
Proof.
  intros He Hc Ho Hc'. unfold etree_elements_assert_equal.
  assert (Hh : height elem = height elem')
    by (destruct elem, elem'; simpl in *; now subst).
  rewrite <- Hh. destruct (height elem) as [|d] eqn:E;
    [destruct elem; discriminate E|].
  simpl. rewrite <- Hc, <- Hc'. now apply compare_children_roots.
Qed.

(** The call always ends: with a pass, or with one of the errors. *)
Lemma etree_elements_assert_equal_total (elem other : Element) :
  exists o,
    etree_elements_assert_equal elem other strict skip_comments unordered
    = Some o.
Proof. apply assert_equal_upto_total. lia. Qed.

(** A list of children paired with itself passes, provided that a child
    with a callable tag is neither skipped on the left nor given to
    [get_namespace], and that every attribute dictionary has distinct
    keys. *)
Lemma compare_children_refl
  (rec : Element -> Element -> option outcome) (elem other : Element)
  (cs : list Element) :
  (forall c, In c cs -> rec c c = Some Pass) ->
  (forall c, In c cs -> callable (tag c) = true ->
             strict = true /\ skip_comments = false) ->
  (forall c, In c cs -> NoDup (Py.dict_keys (attrib c))) ->
  forall ns,
    compare_children strict skip_comments rec elem other ns cs cs
    = Some Pass.
Proof.
  induction cs as [|c cs IH]; intros Hrec Hcall Hattr ns; simpl.
  - reflexivity.
  - assert (Hskip : skip_comments && callable (tag c) = false).
    { destruct (callable (tag c)) eqn:E; [|apply andb_false_r].
      destruct (Hcall c (or_introl eq_refl) E) as [_ ->]. reflexivity. }
    assert (Hname : strict = true \/ callable (tag c) = false).
    { destruct (callable (tag c)) eqn:E; [|now right].
      left. now apply (Hcall c (or_introl eq_refl)). }
    rewrite Hskip.
    pose proof (@check_tag_same _ strict elem c c ns eq_refl Hname) as Ht.
    destruct (check_tag strict elem c c ns) as [o ns']. simpl in Ht.
    subst o. unfold check_attrib, check_children_number, check_text,
      check_tail.
    rewrite (@dict_eqb_refl (attrib c) (Hattr c (or_introl eq_refl))).
    rewrite Nat.eqb_refl, !option_string_eqb_refl. simpl.
    rewrite (Hrec c (or_introl eq_refl)).
    apply IH.
    + intros c0 H0. apply Hrec. now right.
    + intros c0 H0 Hc0. apply (Hcall c0); [now right | exact Hc0].
    + intros c0 H0. apply Hattr. now right.
Qed.

Lemma assert_equal_upto_refl (d : nat) :
  forall e,
    height e <= d ->
    (forall n, In n (nodes e) -> callable (tag n) = true ->
               strict = true /\ skip_comments = false) ->
    (forall n, In n (nodes e) -> NoDup (Py.dict_keys (attrib n))) ->
    assert_equal_upto strict skip_comments unordered d e e = Some Pass.
Proof.
  induction d as [|d IH]; intros e Hh Hcall Hattr.
  - destruct e; simpl in Hh; lia.
  - simpl. apply compare_children_refl.
    + intros c Hc. apply (proj1 (ordered_In _ _)) in Hc. apply IH.
      * apply height_child in Hc. lia.
      * intros n Hn. apply (Hcall n). eapply nodes_child; eauto.
      * intros n Hn. apply Hattr. eapply nodes_child; eauto.
    + intros c Hc. apply (proj1 (ordered_In _ _)) in Hc. apply (Hcall c).
      eapply nodes_child; eauto using nodes_self.
    + intros c Hc. apply (proj1 (ordered_In _ _)) in Hc. apply Hattr.
      eapply nodes_child; eauto using nodes_self.
Qed.

(** X19.  A tree compares equal to itself, under every [unordered], when
    none of its nodes has a callable tag, whatever [strict] and
    [skip_comments] are, and also when it has such nodes provided that
    [strict] is set and [skip_comments] is not; every attribute dictionary
    is taken to have distinct keys.  A node with a callable tag is skipped
    on the left only when [skip_comments] is set, and is given to
    [get_namespace] when [strict] is not. *)
Lemma etree_elements_assert_equal_refl (t : Element) :
  (forall n, In n (nodes t) -> callable (tag n) = true ->
             strict = true /\ skip_comments = false) ->
  (forall n, In n (nodes t) -> NoDup (Py.dict_keys (attrib n))) ->
  etree_elements_assert_equal t t strict skip_comments unordered
  = Some Pass.
Proof. intros. now apply assert_equal_upto_refl. Qed.

End ComparatorGeneral.

(** The running namespace, with the imported functions as the specification
    describes them. *)
Section RunningNamespace.
Context {F : Floats} {R : Regex}.

(** The namespace of a left node is applied to the bare names of the
    siblings that follow it. *)
Lemma namespace_carried_to_sibling :
  @etree_elements_assert_equal SpecQNames.spec_qnames F R
    (Examples.node 0 "r"
       [Examples.node 1 "{urn:x}a" []; Examples.node 2 "b" []])
    (Examples.node 3 "r"
       [Examples.node 4 "{urn:x}a" []; Examples.node 5 "{urn:x}b" []])
    false true false
  = Some Pass.
Proof. reflexivity. Qed.

(** Every call starts from the empty namespace, so the namespace of a
    left node is not applied to the bare names of its own children. *)
Lemma namespace_not_carried_to_child :
  @etree_elements_assert_equal SpecQNames.spec_qnames F R
    (Examples.node 0 "r"
       [Examples.node 1 "{urn:x}a" [Examples.node 2 "b" []]])
    (Examples.node 3 "r"
       [Examples.node 4 "{urn:x}a" [Examples.node 5 "{urn:x}b" []]])
    false true false
  = Some (AssertionError TagsDiffer 2 5).
Proof. reflexivity. Qed.

End RunningNamespace.

(* ================================================================= *)
(** ** Schema locations *)

Lemma list_ind2 (A : Type) (P : list A -> Prop) :
  P [] -> (forall a, P [a]) -> (forall a b l, P l -> P (a :: b :: l)) ->
  forall l, P l.
Proof.
  intros H0 H1 H2 l.
  enough (H : P l /\ forall a, P (a :: l)) by apply H.
  induction l as [|b l [IHl IHc]]; split; auto.
Qed.

Lemma combine_evens_odds_cons2 (A : Type) (a b : A) (l : list A) :
  combine (Py.evens (a :: b :: l)) (Py.odds (a :: b :: l))
  = (a, b) :: combine (Py.evens l) (Py.odds l).
Proof. destruct l; reflexivity. Qed.

Lemma combine_evens_odds_length (A : Type) (l : list A) :
  List.length (combine (Py.evens l) (Py.odds l)) = List.length l / 2.
Proof.
  induction l as [|a|a b l IH] using list_ind2; try reflexivity.
  rewrite combine_evens_odds_cons2. cbn [List.length]. rewrite IH.
  change (S (S (List.length l))) with (1 * 2 + List.length l).
  rewrite Nat.div_add_l by lia. lia.
Qed.

Lemma combine_evens_odds_nth (A : Type) (d : A) (l : list A) :
  forall i,
    i < List.length (combine (Py.evens l) (Py.odds l)) ->
    nth_error (combine (Py.evens l) (Py.odds l)) i
    = Some (nth (2 * i) l d, nth (2 * i + 1) l d).
Proof.
  induction l as [|a|a b l IH] using list_ind2; intros i Hi.
  - simpl in Hi. lia.
  - simpl in Hi. lia.
  - rewrite combine_evens_odds_cons2 in *.
    destruct i as [|i]; [reflexivity|].
    cbn [nth_error List.length] in *. rewrite IH by lia.
    replace (2 * S i) with (S (S (2 * i))) by lia.
    replace (S (S (2 * i)) + 1) with (S (S (2 * i + 1))) by lia.
    reflexivity.
Qed.

Lemma dict_mem_false (k : string) (d : Py.dict) :
  Py.dict_mem k d = false -> Py.dict_get d k = None.
Proof. unfold Py.dict_mem. destruct (Py.dict_get d k); congruence. Qed.

(** C10.  With [n] tokens in the attribute [xsi:schemaLocation] the
    generator yields [n / 2] pairs, the [i]-th made of the tokens [2 i] and
    [2 i + 1] (so a last token without a partner is dropped), and after them
    one pair with the empty namespace for every token of
    [xsi:noNamespaceSchemaLocation]; a node with neither attribute yields
    nothing. *)
Theorem location_hints_pairs {Q : QNames} (elem : Element) :
  exists pairs : list (string * string),
    etree_iter_location_hints elem
    = pairs
        ++ map (fun url => (EmptyString, url))
             (attribute_tokens XSI_NONS_SCHEMA_LOCATION elem)
    /\ List.length pairs
       = List.length (attribute_tokens XSI_SCHEMA_LOCATION elem) / 2
    /\ (forall i, i < List.length pairs ->
          nth_error pairs i
          = Some (nth (2 * i) (attribute_tokens XSI_SCHEMA_LOCATION elem)
                    EmptyString,
                  nth (2 * i + 1) (attribute_tokens XSI_SCHEMA_LOCATION elem)
                    EmptyString))
    /\ (Py.dict_mem XSI_SCHEMA_LOCATION (attrib elem) = false ->
        Py.dict_mem XSI_NONS_SCHEMA_LOCATION (attrib elem) = false ->
        etree_iter_location_hints elem = []).
Proof.
  exists (combine (Py.evens (attribute_tokens XSI_SCHEMA_LOCATION elem))
            (Py.odds (attribute_tokens XSI_SCHEMA_LOCATION elem))).
  repeat split.
  - unfold etree_iter_location_hints, attribute_tokens.
    destruct (Py.dict_get (attrib elem) XSI_SCHEMA_LOCATION);
      destruct (Py.dict_get (attrib elem) XSI_NONS_SCHEMA_LOCATION);
      reflexivity.
  - apply combine_evens_odds_length.
  - apply combine_evens_odds_nth.
  - intros H1 H2. unfold etree_iter_location_hints.
    now rewrite (dict_mem_false _ _ H1), (dict_mem_false _ _ H2).
Qed.

(** The tokens of [str.split]: none is empty and none holds a space. *)
Lemma split_tokens (s : string) :
  Forall (fun t => t <> EmptyString
                   /\ forall c, In c (list_ascii_of_string t) ->
                                Py.is_space c = false)
    (Py.split s).
Proof.
  induction s as [|c s IH]; simpl; [constructor|].
  destruct (Py.is_space c) eqn:Ec; [exact IH|].
  destruct s as [|c' s'].
  - constructor; [|constructor]. split; [discriminate|].
    simpl. intros d [<-|[]]. exact Ec.
  - destruct (Py.is_space c') eqn:Ec'.
    + constructor; [|exact IH]. split; [discriminate|].
      simpl. intros d [<-|[]]. exact Ec.
    + destruct (Py.split (String c' s')) as [|t ts].
      * constructor; [|constructor]. split; [discriminate|].
        simpl. intros d [<-|[]]. exact Ec.
      * inversion IH as [|? ? [Hne Hsp] Hts]; subst.
        constructor; [|exact Hts]. split; [discriminate|].
        simpl. intros d [<-|Hd]; [exact Ec | now apply Hsp].
Qed.

(** An example with five tokens: the fifth one is dropped. *)
Example location_hints_five_tokens :
  @etree_iter_location_hints SpecQNames.spec_qnames
    (mkElement 0 (Name "r")
       [(SpecQNames.XSI_SCHEMA_LOCATION, " urn:a a.xsd  urn:b b.xsd urn:c");
        (SpecQNames.XSI_NONS_SCHEMA_LOCATION, "x.xsd y.xsd")]
       None None [])
  = [("urn:a", "a.xsd"); ("urn:b", "b.xsd"); ("", "x.xsd"); ("", "y.xsd")].
Proof. reflexivity. Qed.

(* ================================================================= *)
(** ** Path indexer: position qualifiers *)

Lemma tag_eqb_sym (a b : Tag) : tag_eqb a b = tag_eqb b a.
Proof.
  destruct (tag_eqb a b) eqn:E1, (tag_eqb b a) eqn:E2; try reflexivity.
  - apply tag_eqb_eq in E1. subst. now rewrite tag_eqb_refl in E2.
  - apply tag_eqb_eq in E2. subst. now rewrite tag_eqb_refl in E1.
Qed.

Lemma occurrences_app (t : Tag) (l1 l2 : list Tag) :
  occurrences t (l1 ++ l2) = occurrences t l1 + occurrences t l2.
Proof. induction l1 as [|x l1 IH]; simpl; [reflexivity|]. rewrite IH. lia. Qed.

Lemma counter_get_incr (t t' : Tag) (c : counter) :
  counter_get (counter_incr t c) t'
  = if tag_eqb t t' then Some (S (count_of c t)) else counter_get c t'.
Proof.
  unfold count_of. induction c as [|[x n] c IH]; simpl.
  - destruct (tag_eqb t t'); reflexivity.
  - destruct (tag_eqb x t) eqn:Ext; simpl.
    + apply tag_eqb_eq in Ext. subst x.
      destruct (tag_eqb t t'); reflexivity.
    + rewrite IH. destruct (tag_eqb x t') eqn:Ext'; [|reflexivity].
      apply tag_eqb_eq in Ext'. subst x. now rewrite tag_eqb_sym, Ext.
Qed.

Lemma counter_get_fold (l : list Tag) :
  forall (c : counter) (t : Tag),
    counter_get (fold_left (fun c t => counter_incr t c) l c) t
    = match occurrences t l with
      | 0 => counter_get c t
      | S n => Some (S n + count_of c t)
      end.
Proof.
  induction l as [|x l IH]; intros c t; simpl; [reflexivity|].
  rewrite IH. unfold count_of at 1. rewrite counter_get_incr.
  destruct (tag_eqb x t) eqn:E; simpl.
  - apply tag_eqb_eq in E. subst x.
    destruct (occurrences t l); f_equal; lia.
  - reflexivity.
Qed.

Lemma counter_get_Counter (l : list Tag) (t : Tag) :
  counter_get (Counter l) t
  = match occurrences t l with 0 => None | S n => Some (S n) end.
Proof.
  unfold Counter. rewrite counter_get_fold. unfold count_of. simpl.
  destruct (occurrences t l); [reflexivity|]. f_equal. lia.
Qed.

Lemma counter_incr_keys (t x : Tag) (c : counter) :
  In x (map fst (counter_incr t c)) <-> x = t \/ In x (map fst c).
Proof.
  induction c as [|[y n] c IH]; simpl.
  - intuition congruence.
  - destruct (tag_eqb y t) eqn:E; simpl.
    + apply tag_eqb_eq in E. subst y. intuition congruence.
    + rewrite IH. tauto.
Qed.

Lemma counter_incr_NoDup (t : Tag) (c : counter) :
  NoDup (map fst c) -> NoDup (map fst (counter_incr t c)).
Proof.
  induction c as [|[y n] c IH]; simpl; intros Hnd.
  - constructor; [tauto | constructor].
  - inversion Hnd as [|? ? Hy Hc]; subst.
    destruct (tag_eqb y t) eqn:E; simpl.
    + constructor; assumption.
    + constructor; [|now apply IH].
      rewrite counter_incr_keys. intros [->|H]; [|tauto].
      now rewrite tag_eqb_refl in E.
Qed.

Lemma Counter_NoDup (l : list Tag) : NoDup (map fst (Counter l)).
Proof.
  unfold Counter.
  enough (H : forall c, NoDup (map fst c) ->
                        NoDup (map fst (fold_left
                                 (fun c t => counter_incr t c) l c)))
    by (apply H; constructor).
  induction l as [|x l IH]; intros c Hc; simpl; [exact Hc|].
  apply IH. now apply counter_incr_NoDup.
Qed.

Lemma counter_get_None (c : counter) (t : Tag) :
  ~ In t (map fst c) -> counter_get c t = None.
Proof.
  induction c as [|[y n] c IH]; simpl; [reflexivity|]. intros H.
  destruct (tag_eqb y t) eqn:E.
  - apply tag_eqb_eq in E. tauto.
  - apply IH. tauto.
Qed.

Lemma occurrences_absent (t : Tag) (l : list Tag) :
  ~ In t l -> occurrences t l = 0.
Proof.
  induction l as [|x l IH]; simpl; [reflexivity|]. intros H.
  destruct (tag_eqb x t) eqn:E.
  - apply tag_eqb_eq in E. tauto.
  - apply IH. tauto.
Qed.

(** The keys kept by a test on the counts occur once each. *)
Lemma occurrences_filter_keys (f : Tag * nat -> bool) (c : counter)
  (t : Tag) :
  NoDup (map fst c) ->
  occurrences t (map fst (filter f c))
  = match counter_get c t with
    | Some n => if f (t, n) then 1 else 0
    | None => 0
    end.
Proof.
  induction c as [|[y n] c IH]; simpl; [reflexivity|]. intros Hnd.
  inversion Hnd as [|? ? Hy Hc]; subst.
  destruct (tag_eqb y t) eqn:E.
  - apply tag_eqb_eq in E. subst y.
    assert (Hrest : occurrences t (map fst (filter f c)) = 0).
    { apply occurrences_absent. intros Hin. apply Hy.
      apply in_map_iff in Hin. destruct Hin as ([y m] & <- & Hin).
      apply filter_In in Hin. apply in_map_iff. exists (y, m). tauto. }
    destruct (f (t, n)); simpl; [rewrite tag_eqb_refl|]; lia.
  - rewrite <- (IH Hc). destruct (f (y, n)); simpl; [rewrite E|]; reflexivity.
Qed.

(** The counter that [etree_iterpath] starts from holds 1 for every tag
    that occurs more than once among the children, and no other key. *)
Lemma initial_positions_get (cs : list Element) (t : Tag) :
  counter_get (initial_positions true cs) t
  = if 1 <? occurrences t (map tag cs) then Some 1 else None.
Proof.
  unfold initial_positions. rewrite counter_get_Counter.
  rewrite occurrences_filter_keys by apply Counter_NoDup.
  rewrite counter_get_Counter. simpl.
  destruct (occurrences t (map tag cs)) as [|[|n]]; reflexivity.
Qed.

Lemma string_app_empty_r (s : string) : (s ++ "")%string = s.
Proof. induction s as [|c s IH]; simpl; congruence. Qed.

(** A child goes without qualifier exactly when its tag occurs once among
    the children of its parent. *)
Lemma position_qualifier_empty (siblings before : list Element)
  (child : Element) :
  position_qualifier siblings before child = EmptyString
  <-> occurrences (tag child) (map tag siblings) <= 1.
Proof.
  unfold position_qualifier.
  destruct (1 <? occurrences (tag child) (map tag siblings)) eqn:E.
  - apply Nat.ltb_lt in E. split; [discriminate | lia].
  - apply Nat.ltb_ge in E. tauto.
Qed.

Section PositionQualifiers.
Context {Q : QNames}.

Lemma child_path_extend (path name : string) :
  (if String.eqb path "/" then ("/" ++ name)%string
   else if Py.truthy path then Py.join "/" [path; name] else name)
  = extend_path path name.
Proof. reflexivity. Qed.

(** The loop over the children, from any state of the counter that agrees
    with the ranks of the children already seen. *)
Lemma iterpath_children_qualified
  (rec : Element -> string -> list (Element * string)) (path : string)
  (namespaces : option Py.dict) (siblings : list Element) :
  forall (cs before : list Element) (positions : counter),
    (forall s,
        counter_get positions (Name s)
        = if 1 <? occurrences (Name s) (map tag siblings)
          then Some (S (occurrences (Name s) (map tag before)))
          else None) ->
    iterpath_children rec path namespaces positions cs
    = flat_map (fun cp => rec (fst cp) (snd cp))
        (qualified_children path namespaces siblings before cs).
Proof.
  induction cs as [|child rest IH]; intros before positions Hpos;
    [reflexivity|].
  cbn [iterpath_children qualified_children].
  destruct (tag child) as [s|f] eqn:Etag; cbn [callable].
  - rewrite child_path_extend. unfold position_qualifier, shown_name.
    rewrite Etag, Hpos.
    destruct (1 <? occurrences (Name s) (map tag siblings)) eqn:Emany.
    + cbn [app flat_map fst snd]. f_equal.
      apply IH. intros s'. rewrite counter_get_incr.
      rewrite map_app, occurrences_app. cbn [map occurrences].
      rewrite Etag.
      destruct (tag_eqb (Name s) (Name s')) eqn:E.
      * apply tag_eqb_eq in E. inversion E; subst s'.
        unfold count_of. rewrite Hpos, Emany. f_equal. lia.
      * rewrite Hpos.
        destruct (1 <? occurrences (Name s') (map tag siblings));
          [do 2 f_equal; lia | reflexivity].
    + cbn [app flat_map fst snd].
      rewrite string_app_empty_r.
      f_equal. apply IH. intros s'. rewrite Hpos.
      rewrite map_app, occurrences_app. cbn [map occurrences]. rewrite Etag.
      destruct (1 <? occurrences (Name s') (map tag siblings)) eqn:E';
        [|reflexivity].
      destruct (tag_eqb (Name s) (Name s')) eqn:E.
      * apply tag_eqb_eq in E. inversion E; subst s'. congruence.
      * f_equal. lia.
  - cbn [app]. apply IH. intros s. rewrite Hpos.
    rewrite map_app, occurrences_app. cbn [map occurrences]. rewrite Etag.
    cbn [tag_eqb].
    destruct (1 <? occurrences (Name s) (map tag siblings));
      [do 2 f_equal; lia | reflexivity].
Qed.

Lemma effective_filter_idem (f : option Tag) :
  effective_filter (effective_filter f) = effective_filter f.
Proof.
  destruct f as [[s|g]|]; try reflexivity.
  unfold effective_filter.
  destruct s as [|c s]; [reflexivity|].
  destruct c as [[] [] [] [] [] [] [] []]; try reflexivity;
    destruct s; reflexivity.
Qed.

Lemma etree_iterpath_unfold (elem : Element) (f : option Tag)
  (path : string) (namespaces : option Py.dict) (add_position : bool) :
  etree_iterpath elem f path namespaces add_position
  = emitted f elem path
      ++ iterpath_children
           (fun child child_path =>
              etree_iterpath child (effective_filter f) child_path
                namespaces add_position)
           path namespaces
           (initial_positions add_position (children elem))
           (children elem).
Proof. destruct elem; reflexivity. Qed.

Lemma etree_iterpath_effective (elem : Element) (f : option Tag)
  (path : string) (namespaces : option Py.dict) (add_position : bool) :
  etree_iterpath elem (effective_filter f) path namespaces add_position
  = etree_iterpath elem f path namespaces add_position.
Proof.
  rewrite !etree_iterpath_unfold. unfold emitted.
  now rewrite !effective_filter_idem.
Qed.

(** C6.  With [add_position] set, the generator yields what it yields for
    the node itself and then, for every child that is an element and in
    document order, what it yields for that child under the path of
    [qualified_children]: the parent's path extended by the name of the
    child, followed by [[n]] exactly when the tag of the child occurs more
    than once among the children of the parent, [n] being the 1-based rank
    of the child among the children with that tag.  For a parent whose
    children are tagged [a, b, a, a] the paths end in [a[1]], [b], [a[2]],
    [a[3]], in this order. *)
Theorem iterpath_position_qualifiers :
  (forall (elem : Element) (tag_filter : option Tag) (path : string)
          (namespaces : option Py.dict),
      etree_iterpath elem tag_filter path namespaces true
      = emitted tag_filter elem path
          ++ flat_map
               (fun cp =>
                  etree_iterpath (fst cp) tag_filter (snd cp) namespaces true)
               (qualified_children path namespaces
                  (children elem) [] (children elem)))
  /\
  (forall (parent a1 b a2 a3 : Element) (path : string),
      children parent = [a1; b; a2; a3] ->
      tag a1 = Name "a" -> tag b = Name "b" ->
      tag a2 = Name "a" -> tag a3 = Name "a" ->
      children a1 = [] -> children b = [] ->
      children a2 = [] -> children a3 = [] ->
      etree_iterpath parent None path None true
      = [(parent, path);
         (a1, (extend_path path "a" ++ "[1]")%string);
         (b, extend_path path "b");
         (a2, (extend_path path "a" ++ "[2]")%string);
         (a3, (extend_path path "a" ++ "[3]")%string)]).
Proof.
  assert (General :
    forall elem tag_filter path namespaces,
      etree_iterpath elem tag_filter path namespaces true
      = emitted tag_filter elem path
          ++ flat_map
               (fun cp =>
                  etree_iterpath (fst cp) tag_filter (snd cp) namespaces true)
               (qualified_children path namespaces
                  (children elem) [] (children elem))).
  { intros elem f path namespaces. rewrite etree_iterpath_unfold. f_equal.
    rewrite iterpath_children_qualified
      with (siblings := children elem) (before := []).
    - apply flat_map_ext. intros [c p]. apply etree_iterpath_effective.
    - intros s. rewrite initial_positions_get. reflexivity. }
  split; [exact General|].
  intros parent a1 b a2 a3 path Hc Ha1 Hb Ha2 Ha3 Hl1 Hl2 Hl3 Hl4.
  rewrite General, Hc. unfold emitted. cbn [effective_filter app].
  cbn [qualified_children app]. unfold position_qualifier, shown_name.
  rewrite Ha1, Hb, Ha2, Ha3. cbn [callable app map]. rewrite Ha1, Hb, Ha2, Ha3.
  cbn [flat_map fst snd occurrences tag_eqb format_s].
  rewrite !General, Hl1, Hl2, Hl3, Hl4. unfold emitted.
  cbn [effective_filter qualified_children flat_map app].
  rewrite string_app_empty_r. reflexivity.
Qed.

End PositionQualifiers.

(** The paths of a tree whose root has children tagged [a, b, a, a]. *)
Example iterpath_a_b_a_a :
  map snd
    (@etree_iterpath SpecQNames.spec_qnames
       (Examples.node 0 "p"
          [Examples.node 1 "a" []; Examples.node 2 "b" [];
           Examples.node 3 "a" [Examples.node 5 "c" []];
           Examples.node 4 "a" []])
       None "." None true)
  = ["."; "./a[1]"; "./b"; "./a[2]"; "./a[2]/c"; "./a[3]"].
Proof. reflexivity. Qed.

(* ================================================================= *)
(** ** Path indexer: a node that is not in the tree *)

Section GetPath.
Context {Q : QNames}.

Lemma iterpath_children_nodes
  (rec : Element -> string -> list (Element * string)) (path : string)
  (namespaces : option Py.dict) (cs : list Element) :
  (forall c p x, In c cs -> In x (rec c p) -> In (fst x) (nodes c)) ->
  forall positions x,
    In x (iterpath_children rec path namespaces positions cs) ->
    exists c, In c cs /\ In (fst x) (nodes c).
Proof.
  induction cs as [|child rest IH]; intros Hrec positions x Hx;
    [destruct Hx|].
  assert (Hrest : forall c p y, In c rest -> In y (rec c p) ->
                                In (fst y) (nodes c))
    by (intros c p y Hc; apply Hrec; now right).
  cbn [iterpath_children] in Hx.
  destruct (callable (tag child)).
  - destruct (IH Hrest _ _ Hx) as (c & Hc & Hn). exists c. split; [now right|auto].
  - destruct (counter_get positions (tag child));
      apply in_app_or in Hx; destruct Hx as [Hx|Hx].
    + exists child. split; [now left|]. eapply Hrec; [now left | exact Hx].
    + destruct (IH Hrest _ _ Hx) as (c & Hc & Hn).
      exists c. split; [now right|auto].
    + exists child. split; [now left|]. eapply Hrec; [now left | exact Hx].
    + destruct (IH Hrest _ _ Hx) as (c & Hc & Hn).
      exists c. split; [now right|auto].
Qed.

(** Every node that the generator yields is a node of the tree. *)
Lemma etree_iterpath_nodes (root : Element) :
  forall (f : option Tag) (path : string) (namespaces : option Py.dict)
         (add_position : bool) (x : Element * string),
    In x (etree_iterpath root f path namespaces add_position) ->
    In (fst x) (nodes root).
Proof.
  induction root as [i t a tx tl cs IH] using Element_ind.
  intros f path namespaces add_position x Hx.
  rewrite etree_iterpath_unfold in Hx. apply in_app_or in Hx.
  destruct Hx as [Hx|Hx].
  - unfold emitted in Hx.
    destruct (effective_filter f) as [u|].
    + destruct (tag_eqb _ u); [|destruct Hx].
      destruct Hx as [<-|[]]. apply nodes_self.
    + destruct Hx as [<-|[]]. apply nodes_self.
  - apply iterpath_children_nodes in Hx.
    + destruct Hx as (c & Hc & Hn). eapply nodes_child; eauto.
    + intros c p y Hc Hy. rewrite Forall_forall in IH. eapply IH; eauto.
Qed.

Lemma first_path_none (test : Element -> bool)
  (l : list (Element * string)) :
  (forall x, In x l -> test (fst x) = false) -> first_path test l = None.
Proof.
  induction l as [|[e p] l IH]; intros H; simpl; [reflexivity|].
  pose proof (H (e, p) (or_introl eq_refl)) as He. simpl in He.
  rewrite He. apply IH.
  intros x Hx. apply H. now right.
Qed.

(** A node whose identity is not in the tree is no child of a node of the
    tree. *)
Lemma elem_in_absent (elem root e : Element) :
  ~ In (eid elem) (map eid (nodes root)) ->
  In e (nodes root) -> elem_in elem e = false.
Proof.
  intros Habs He. unfold elem_in.
  destruct (existsb (is_ elem) (children e)) eqn:E; [|reflexivity].
  apply existsb_exists in E. destruct E as (c & Hc & His).
  unfold is_ in His. apply Nat.eqb_eq in His.
  exfalso. apply Habs. rewrite His. apply in_map.
  eapply nodes_trans; [exact He|]. eapply nodes_child; eauto using nodes_self.
Qed.

(** C8.  When the object [elem] is neither [root] nor one of its
    descendants, [etree_getpath] returns [None], with [parent_path] set or
    not, and with any value of the other arguments. *)
Theorem getpath_absent (elem root : Element) (namespaces : option Py.dict)
  (relative add_position parent_path : bool) :
  ~ In (eid elem) (map eid (nodes root)) ->
  etree_getpath elem root namespaces relative add_position parent_path = None.
Proof.
  intros Habs. unfold etree_getpath.
  destruct parent_path; cbn [negb].
  - rewrite (elem_in_absent elem root root Habs (nodes_self root)).
    apply first_path_none. intros x Hx.
    apply etree_iterpath_nodes in Hx.
    now apply elem_in_absent with root.
  - apply first_path_none. intros x Hx.
    apply etree_iterpath_nodes in Hx.
    unfold is_. apply Nat.eqb_neq. intros Heq.
    apply Habs. rewrite <- Heq. now apply in_map.
Qed.

End GetPath.

(** The theorem on a tree with two nodes and a node that is not in it. *)
Lemma getpath_absent_witness :
  ~ In 9 (map eid (nodes (Examples.node 0 "r" [Examples.node 1 "a" []])))
  /\ @etree_getpath SpecQNames.spec_qnames
       (Examples.node 9 "a" []) (Examples.node 0 "r" [Examples.node 1 "a" []])
       None true true true = None.
Proof.
  assert (H : ~ In 9 (map eid (nodes (Examples.node 0 "r"
                                        [Examples.node 1 "a" []])))).
  { simpl. intros [H|[H|[]]]; discriminate H. }
  split; [exact H|].
  exact (@getpath_absent SpecQNames.spec_qnames (Examples.node 9 "a" [])
           (Examples.node 0 "r" [Examples.node 1 "a" []])
           None true true true H).
Defined.

(** A node of the tree has a path; its parent is found by the second
    contract only when the parent carries the tag of the node, since the
    generator is filtered by that tag. *)
Example getpath_present :
  let c := Examples.node 3 "c" [] in
  let root := Examples.node 0 "r"
                [Examples.node 1 "a" []; Examples.node 2 "a" [c]] in
  @etree_getpath SpecQNames.spec_qnames c root None true true false
  = Some "./a[2]/c"
  /\ @etree_getpath SpecQNames.spec_qnames c root None true true true
     = None.
Proof. split; reflexivity. Qed.

(* ================================================================= *)
(** ** Pruner *)

Lemma map_kept_filter (selector : Element -> bool) (B : Type)
  (f : Element -> B) (cs : list Element) :
  map_kept selector f cs = map f (filter (fun c => negb (selector c)) cs).
Proof.
  induction cs as [|c cs IH]; simpl; [reflexivity|].
  destruct (selector c); simpl; congruence.
Qed.

Lemma flat_map_kept_filter (selector : Element -> bool) (B : Type)
  (g : Element -> list B) (cs : list Element) :
  flat_map_kept selector g cs
  = flat_map g (filter (fun c => negb (selector c)) cs).
Proof.
  induction cs as [|c cs IH]; simpl; [reflexivity|].
  destruct (selector c); simpl; congruence.
Qed.

Lemma filter_twice (A : Type) (f g : A -> bool) (l : list A) :
  filter f (filter g l) = filter (fun x => g x && f x) l.
Proof.
  induction l as [|x l IH]; simpl; [reflexivity|].
  destruct (g x); simpl; [destruct (f x)|]; congruence.
Qed.

(** Two nodes of one list with the same identity are the same node, when an
    identity occurs once in the list. *)
Lemma eid_injective (l : list Element) (a b : Element) :
  NoDup (map eid l) -> In a l -> In b l -> eid a = eid b -> a = b.
Proof.
  induction l as [|x l IH]; simpl; [tauto|].
  intros Hnd Ha Hb Heq. inversion Hnd as [|? ? Hx Hl]; subst.
  destruct Ha as [->|Ha], Hb as [->|Hb]; auto.
  - exfalso. apply Hx. rewrite Heq. now apply in_map.
  - exfalso. apply Hx. rewrite <- Heq. now apply in_map.
Qed.

Lemma children_eid_in_nodes (cs : list Element) (c : Element) :
  In c cs -> In (eid c) (map eid (flat_map nodes cs)).
Proof.
  intros Hc. apply in_map. apply in_flat_map. exists c.
  split; [exact Hc | apply nodes_self].
Qed.

Lemma well_formed_forest (cs : list Element) :
  NoDup (map eid (flat_map nodes cs)) ->
  NoDup (map eid cs) /\ Forall well_formed cs.
Proof.
  induction cs as [|c cs IH]; intros Hnd.
  - split; constructor.
  - cbn [flat_map] in Hnd. rewrite map_app in Hnd.
    pose proof (NoDup_app_remove_l _ _ Hnd) as Hr.
    pose proof (NoDup_app_remove_r _ _ Hnd) as Hl.
    destruct (IH Hr) as [Hids Hwf].
    split.
    + cbn [map]. constructor; [|exact Hids].
      intros Hin. apply in_map_iff in Hin. destruct Hin as (d & Hd & Hin).
      assert (Hdup : In (eid c) (map eid (flat_map nodes cs)))
        by (rewrite <- Hd; now apply children_eid_in_nodes).
      destruct c as [i t a x l ds]. cbn [nodes map app eid] in *.
      inversion Hnd as [|? ? Hhead _]; subst.
      apply Hhead. apply in_or_app. now right.
    + constructor; [exact Hl | exact Hwf].
Qed.

Lemma well_formed_children (e : Element) :
  well_formed e ->
  NoDup (map eid (children e)) /\ Forall well_formed (children e).
Proof.
  unfold well_formed. destruct e as [i t a x l cs]. cbn [nodes map children].
  intros Hnd. inversion Hnd; subst. now apply well_formed_forest.
Qed.

Section PrunerFacts.
Variable selector : Element -> bool.

(** [remove] takes out the nodes with the identity of [child]; there is at
    most one when identities are distinct. *)
Lemma remove_filter (child : Element) (cs : list Element) :
  NoDup (map eid cs) ->
  remove child cs = filter (fun c => negb (is_ c child)) cs.
Proof.
  induction cs as [|c cs IH]; simpl; [reflexivity|]. intros Hnd.
  inversion Hnd as [|? ? Hc Hcs]; subst.
  destruct (is_ c child) eqn:E; simpl.
  - symmetry. apply forallb_filter_id. apply forallb_forall.
    intros d Hd. unfold is_ in *. apply Nat.eqb_eq in E.
    apply negb_true_iff, Nat.eqb_neq. intros Heq. apply Hc.
    rewrite E, <- Heq. now apply in_map.
  - f_equal. now apply IH.
Qed.

Lemma filter_NoDup_eid (f : Element -> bool) (cs : list Element) :
  NoDup (map eid cs) -> NoDup (map eid (filter f cs)).
Proof.
  induction cs as [|c cs IH]; simpl; [auto|]. intros Hnd.
  inversion Hnd as [|? ? Hc Hcs]; subst.
  destruct (f c); simpl; [|auto].
  constructor; [|auto]. intros Hin. apply Hc.
  apply in_map_iff in Hin. destruct Hin as (d & Hd & Hin).
  apply filter_In in Hin. rewrite <- Hd. apply in_map. tauto.
Qed.

(** The first loop of [_prune_subtree], from any copy of the children. *)
Lemma remove_selected_filter (snapshot : list Element) :
  forall cs,
    NoDup (map eid cs) ->
    remove_selected selector snapshot cs
    = filter (fun c => negb (existsb (fun s => selector s && is_ c s)
                               snapshot)) cs.
Proof.
  induction snapshot as [|child rest IH]; intros cs Hnd; simpl.
  - symmetry. apply forallb_filter_id. now apply forallb_forall.
  - destruct (selector child) eqn:Es; simpl.
    + rewrite IH by (rewrite remove_filter by exact Hnd;
                     now apply filter_NoDup_eid).
      rewrite remove_filter by exact Hnd. rewrite filter_twice.
      apply filter_ext. intros c.
      destruct (is_ c child); reflexivity.
    + now apply IH.
Qed.

(** On the children themselves the loop keeps those that do not pass the
    selector. *)
Lemma remove_selected_children (cs : list Element) :
  NoDup (map eid cs) ->
  remove_selected selector cs cs = filter (fun c => negb (selector c)) cs.
Proof.
  intros Hnd. rewrite remove_selected_filter by exact Hnd.
  apply filter_ext_in. intros c Hc. f_equal.
  destruct (selector c) eqn:Es.
  - apply existsb_exists. exists c. split; [exact Hc|].
    rewrite Es. unfold is_. now rewrite Nat.eqb_refl.
  - destruct (existsb _ cs) eqn:E; [|reflexivity].
    apply existsb_exists in E. destruct E as (s & Hs & Hsel).
    apply andb_true_iff in Hsel. destruct Hsel as [Hsel His].
    unfold is_ in His. apply Nat.eqb_eq in His.
    rewrite (@eid_injective cs c s Hnd Hc Hs His) in Es. congruence.
Qed.

(** With a budget that covers the height, [_prune_subtree] computes
    [pruned]. *)
Lemma _prune_subtree_pruned (d : nat) :
  forall e,
    height e <= d -> well_formed e ->
    _prune_subtree selector d e = pruned selector e.
Proof.
  induction d as [|d IH]; intros e Hh Hwf.
  - destruct e; simpl in Hh; lia.
  - destruct (well_formed_children Hwf) as [Hids Hcs].
    destruct e as [i t a x l cs]. cbn [_prune_subtree pruned children] in *.
    f_equal. rewrite remove_selected_children by exact Hids.
    rewrite map_kept_filter. apply map_ext_in. intros c Hc.
    apply filter_In in Hc. destruct Hc as [Hc _].
    apply IH.
    + pose proof (@height_child (mkElement i t a x l cs) c Hc). lia.
    + rewrite Forall_forall in Hcs. now apply Hcs.
Qed.

End PrunerFacts.

Section PrunerSpec.
Variable selector : Element -> bool.

Lemma own_data_set_children (e : Element) (cs : list Element) :
  own_data (set_children e cs) = own_data e.
Proof. reflexivity. Qed.

(** The nodes of the pruned tree are the survivors, each with its own
    data, in document order. *)
Lemma nodes_pruned (e : Element) :
  map own_data (nodes (pruned selector e))
  = map own_data (survivors selector e).
Proof.
  induction e as [i t a x l cs IH] using Element_ind.
  cbn [pruned survivors nodes children set_children map]. f_equal.
  induction cs as [|c cs IHcs]; [reflexivity|].
  inversion IH as [|? ? Hc Hcs]; subst.
  cbn [map_kept flat_map_kept]. destruct (selector c).
  - now apply IHcs.
  - cbn [flat_map]. rewrite !map_app. f_equal; [exact Hc | now apply IHcs].
Qed.

Lemma nodes_pruned_eid (e : Element) :
  map eid (nodes (pruned selector e)) = map eid (survivors selector e).
Proof.
  pose proof (f_equal (map (fun d : nat * Tag * Py.dict * option string
                                    * option string =>
                              fst (fst (fst (fst d)))))
                (nodes_pruned e)) as H.
  rewrite !map_map in H. exact H.
Qed.

Lemma survivors_self (e : Element) : In e (survivors selector e).
Proof. destruct e; simpl; auto. Qed.

Lemma survivors_unfold (e n : Element) :
  In n (survivors selector e)
  <-> n = e \/ exists c, In c (children e) /\ selector c = false
                         /\ In n (survivors selector c).
Proof.
  destruct e as [i t a x l cs]. cbn [survivors children].
  rewrite flat_map_kept_filter. split.
  - intros [H|H]; [left; congruence|]. right.
    apply in_flat_map in H. destruct H as (c & Hc & Hn).
    apply filter_In in Hc. destruct Hc as [Hc Hs].
    apply negb_true_iff in Hs. eauto.
  - intros [->|(c & Hc & Hs & Hn)]; [now left|]. right.
    apply in_flat_map. exists c. split; [|exact Hn].
    apply filter_In. split; [exact Hc|]. now rewrite Hs.
Qed.

Lemma survivors_nodes (e : Element) :
  forall n, In n (survivors selector e) -> In n (nodes e).
Proof.
  induction e as [i t a x l cs IH] using Element_ind. intros n Hn.
  apply survivors_unfold in Hn. destruct Hn as [->|(c & Hc & _ & Hn)].
  - apply nodes_self.
  - rewrite Forall_forall in IH. eapply nodes_child; eauto.
Qed.

Lemma survivors_step (root : Element) :
  forall p c,
    In p (survivors selector root) -> In c (children p) ->
    selector c = false -> In c (survivors selector root).
Proof.
  induction root as [i t a x l cs IH] using Element_ind.
  intros p c Hp Hc Hs. apply survivors_unfold.
  apply survivors_unfold in Hp. destruct Hp as [->|(d & Hd & Hsd & Hp)].
  - right. exists c. split; [exact Hc|]. split; [exact Hs|].
    apply survivors_self.
  - right. exists d. split; [exact Hd|]. split; [exact Hsd|].
    rewrite Forall_forall in IH. eapply IH; eauto.
Qed.

Lemma kept_from_trans (root m n : Element) :
  kept_from selector root m -> kept_from selector m n ->
  kept_from selector root n.
Proof.
  intros Hm Hn. induction Hn as [|p c Hp IHp Hc Hs]; [exact Hm|].
  eapply kept_child; eauto.
Qed.

Lemma survivors_kept_from (root : Element) :
  forall n, In n (survivors selector root) <-> kept_from selector root n.
Proof.
  intros n. split.
  - revert n. induction root as [i t a x l cs IH] using Element_ind.
    intros n Hn. apply survivors_unfold in Hn.
    destruct Hn as [->|(c & Hc & Hs & Hn)]; [constructor|].
    rewrite Forall_forall in IH.
    apply kept_from_trans with c; [|now apply IH].
    eapply kept_child; [constructor | exact Hc | exact Hs].
  - intros H. induction H as [|p c Hp IHp Hc Hs].
    + apply survivors_self.
    + eapply survivors_step; eauto.
Qed.

(** C7, as amended.  On a tree in which no object occurs twice: when the
    selector holds of [root], the call returns [True] and leaves [root],
    still the same node, without children; otherwise the call returns
    [None] and leaves the tree [pruned], in which every node has lost the
    children that pass the selector and only them.  The nodes of that tree
    are, with their own data and in document order, the nodes reached from
    [root] through nodes that do not pass the selector; so a node of the
    original tree is still in the tree exactly when such a chain leads to
    it, and a node that does not pass the selector is gone when it lies
    below one that does. *)
Theorem prune_etree_spec (root : Element) :
  well_formed root ->
  (selector root = true ->
   prune_etree selector root = (Some true, set_children root []))
  /\ (selector root = false ->
      prune_etree selector root = (None, pruned selector root)
      /\ map own_data (nodes (pruned selector root))
         = map own_data (survivors selector root)
      /\ forall n,
          In n (nodes root) ->
          (In (eid n) (map eid (nodes (pruned selector root)))
           <-> kept_from selector root n)).
Proof.
  intros Hwf. split; intros Hsel; unfold prune_etree; rewrite Hsel;
    [reflexivity|].
  split; [|split].
  - f_equal. now apply _prune_subtree_pruned.
  - apply nodes_pruned.
  - intros n Hn. rewrite nodes_pruned_eid, <- survivors_kept_from. split.
    + intros Hin. apply in_map_iff in Hin. destruct Hin as (m & Hm & Hin).
      pose proof (survivors_nodes _ _ Hin) as Hmn.
      now rewrite <- (@eid_injective (nodes root) m n Hwf Hmn Hn Hm).
    + apply in_map.
Qed.

End PrunerSpec.

(** The theorem on the tree [r] with the child [x], which has the child
    [y], and the selector of the nodes tagged [x]. *)
Lemma prune_etree_spec_witness :
  well_formed Examples.tree_rxy
  /\ prune_etree Examples.tagged_x Examples.tree_rxy
     = (None, Examples.node 0 "r" []).
Proof.
  assert (Hwf : well_formed Examples.tree_rxy).
  { unfold well_formed. simpl.
    repeat constructor; simpl; intuition discriminate. }
  split; [exact Hwf|].
  exact (proj1 (proj2 (prune_etree_spec Examples.tagged_x Hwf) eq_refl)).
Defined.

(** C7, as stated, fails on the tree [r] with the child [x], which has the
    child [y]: neither [r] nor [y] passes the selector of the nodes tagged
    [x], [y] is a descendant of [r], and [y] is not in the tree after the
    call. *)
Lemma prune_etree_loses_descendant :
  ~ (Examples.tagged_x Examples.tree_rxy = false ->
     fst (prune_etree Examples.tagged_x Examples.tree_rxy) = None
     /\ forall n d,
         In n (nodes Examples.tree_rxy) -> Examples.tagged_x n = false ->
         In d (nodes n) -> Examples.tagged_x d = false ->
         In (eid d)
           (map eid
              (nodes (snd (prune_etree Examples.tagged_x
                             Examples.tree_rxy))))).
Proof.
  intros H. destruct (H eq_refl) as [_ Hkeep].
  specialize (Hkeep Examples.tree_rxy (Examples.node 2 "y" [])
                (or_introl eq_refl) eq_refl).
  simpl in Hkeep.
  destruct Hkeep as [Hk|[]]; [tauto | reflexivity | discriminate Hk].
Qed.

(* ================================================================= *)
(** ** Serializer: truncation *)

Lemma is_blank_is_space (c : ascii) :
  Py.is_blank c = true -> Py.is_space c = true.
Proof.
  unfold Py.is_blank, Py.is_space. intros H. apply Nat.eqb_eq in H.
  rewrite H. reflexivity.
Qed.

Lemma first_non_blank_none (s : string) :
  first_non_blank s = None -> Py.lstrip s = EmptyString.
Proof.
  induction s as [|c s IH]; simpl; [reflexivity|].
  destruct (Py.is_blank c) eqn:E; [|discriminate].
  rewrite (is_blank_is_space c E).
  destruct (first_non_blank s); [discriminate|]. intros _. now apply IH.
Qed.

(** A line with something else than space characters has an indentation. *)
Lemma first_non_blank_some (s : string) :
  Py.truthy (Py.strip s) = true -> exists n, first_non_blank s = Some n.
Proof.
  intros H. destruct (first_non_blank s) as [n|] eqn:E; [eauto|].
  unfold Py.strip in H. rewrite (first_non_blank_none s E) in H.
  discriminate H.
Qed.

(** After the blank lines at the end are dropped, the last line is not
    blank. *)
Lemma drop_trailing_blank_last (lines : list string) :
  drop_trailing_blank lines <> [] ->
  Py.truthy (Py.strip (last (drop_trailing_blank lines) EmptyString)) = true.
Proof.
  induction lines as [|l ls IH]; simpl; [congruence|].
  destruct (drop_trailing_blank ls) as [|r rs] eqn:E.
  - destruct (Py.truthy (Py.strip l)) eqn:El; [|congruence].
    intros _. exact El.
  - intros _. change (last (l :: r :: rs) EmptyString)
      with (last (r :: rs) EmptyString). apply IH. discriminate.
Qed.

Lemma skipn_last (A : Type) (d : A) (l : list A) :
  l <> [] -> skipn (List.length l - 1) l = [last l d].
Proof.
  induction l as [|x l IH]; [congruence|]. intros _.
  destruct l as [|y l]; [reflexivity|].
  replace (List.length (x :: y :: l) - 1) with (S (List.length (y :: l) - 1))
    by (simpl; lia).
  cbn [skipn]. rewrite IH by discriminate. reflexivity.
Qed.

Lemma length_gt_not_nil (A : Type) (n : Z) (l : list A) :
  (0 <= n)%Z -> (n < Z.of_nat (List.length l))%Z -> l <> [].
Proof. intros H0 H1 ->. simpl in H1. lia. Qed.

(** C5, as amended.  For a serialization that is a [str], with
    [max_lines = k], [k] not negative, more than [k + 2] lines in the list
    (after the tabs are replaced and the blank lines at the end dropped)
    and [child_indent] defined, which asks for a line with a character
    other than a blank between the first and the last, the string returned
    is made of [k + 3] lines joined by newlines: what [reindent] returns
    for each of the first [k] lines, for two lines [child_indent + "..."]
    and for the last line of the list, [min_indent] being the smaller of
    [child_indent] and [last_indent].  Nothing is said on what the last
    line of the list is. *)
Theorem tostring_truncation (indent xml_text : string) (k : Z)
  (spaces_for_tab : nat) (xml_declaration : bool) (child_indent : string) :
  (0 <= k)%Z ->
  (k + 2 < Z.of_nat (List.length
                       (tostring_lines xml_text spaces_for_tab
                          xml_declaration)))%Z ->
  child_indent_of (tostring_lines xml_text spaces_for_tab xml_declaration)
  = Some child_indent ->
  exists last_indent : string,
    last_indent_of (tostring_lines xml_text spaces_for_tab xml_declaration)
    = Some last_indent
    /\ etree_tostring indent (Str xml_text) (Some k) spaces_for_tab
         xml_declaration
       = Text
           (Py.join Examples.newline
              (map (reindent indent (str_min child_indent last_indent)
                      (Z.of_nat (String.length
                                   (str_min child_indent last_indent))
                       - Z.of_nat (String.length indent)))
                 (firstn (Z.to_nat k)
                    (tostring_lines xml_text spaces_for_tab xml_declaration)
                    ++ [(child_indent ++ "...")%string;
                        (child_indent ++ "...")%string]
                    ++ [last (tostring_lines xml_text spaces_for_tab
                                xml_declaration) EmptyString]))).
Proof.
  intros Hk Hlen Hci. unfold etree_tostring, tostring_str.
  set (lines := tostring_lines xml_text spaces_for_tab xml_declaration) in *.
  assert (Hne : lines <> []) by (apply length_gt_not_nil with (k + 2)%Z; lia).
  destruct (first_non_blank_some (last lines EmptyString)) as [n Hn].
  { apply drop_trailing_blank_last. exact Hne. }
  exists (Py.spaces n).
  assert (Hli : last_indent_of lines = Some (Py.spaces n))
    by (unfold last_indent_of; now rewrite Hn).
  split; [exact Hli|].
  destruct lines as [|l0 ls] eqn:El; [congruence|].
  rewrite Hli, Hci. unfold min_indent_of, truncate.
  assert (H2 : (2 <? List.length (l0 :: ls)) = true)
    by (apply Nat.ltb_lt; lia).
  rewrite H2.
  assert (Hk2 : (k + 2 <? Z.of_nat (List.length (l0 :: ls)))%Z = true)
    by (apply Z.ltb_lt; exact Hlen).
  rewrite Hk2. unfold Py.list_slice_to, Py.list_last_slice.
  assert (Hneg : (k <? 0)%Z = false) by (apply Z.ltb_ge; exact Hk).
  rewrite Hneg. rewrite (skipn_last EmptyString Hne). reflexivity.
Qed.

(** The theorem on the serialization of an indented element, cut after
    its first line. *)
Lemma tostring_truncation_witness :
  (0 <= 1)%Z
  /\ (1 + 2 < Z.of_nat (List.length
                          (tostring_lines Examples.indented_xml 4 false)))%Z
  /\ child_indent_of (tostring_lines Examples.indented_xml 4 false)
     = Some "    "
  /\ exists last_indent : string,
      last_indent_of (tostring_lines Examples.indented_xml 4 false)
      = Some last_indent
      /\ etree_tostring "" (Str Examples.indented_xml) (Some 1%Z) 4 false
         = Text
             (Py.join Examples.newline
                (map (reindent "" (str_min "    " last_indent)
                        (Z.of_nat (String.length
                                     (str_min "    " last_indent))
                         - Z.of_nat (String.length "")))
                   (firstn (Z.to_nat 1)
                      (tostring_lines Examples.indented_xml 4 false)
                      ++ ["    ..."; "    ..."]
                      ++ [last (tostring_lines Examples.indented_xml 4 false)
                            EmptyString]))).
Proof.
  assert (H0 : (0 <= 1)%Z) by (vm_compute; discriminate).
  assert (H1 : (1 + 2 < Z.of_nat (List.length
                          (tostring_lines Examples.indented_xml 4 false)))%Z)
    by reflexivity.
  assert (H2 : child_indent_of (tostring_lines Examples.indented_xml 4 false)
               = Some "    ") by reflexivity.
  split; [exact H0|]. split; [exact H1|]. split; [exact H2|].
  exact (@tostring_truncation "" Examples.indented_xml 1%Z 4 false "    "
           H0 H1 H2).
Defined.

(** The value of the call on the example: the markers and the closing line
    have lost the two blanks of [min_indent]. *)
Example tostring_truncated_example :
  etree_tostring "" (Str Examples.indented_xml) (Some 1%Z) 4 false
  = Text ("<r>" ++ Examples.newline ++ "  ..." ++ Examples.newline
            ++ "  ..." ++ Examples.newline ++ "</r>")%string.
Proof. reflexivity. Qed.

(** C5, as stated, fails on the example: the list has five lines, more than
    [1 + 2], [child_indent] is four blanks, and the string returned is not
    the first line, two lines of [child_indent + "..."] and the last line:
    its markers start with two blanks and its last line with none. *)
Lemma tostring_truncation_not_verbatim :
  ~ ((1 + 2 < Z.of_nat (List.length
                          (tostring_lines Examples.indented_xml 4 false)))%Z ->
     child_indent_of (tostring_lines Examples.indented_xml 4 false)
     = Some "    " ->
     etree_tostring "" (Str Examples.indented_xml) (Some 1%Z) 4 false
     = Text
         (Py.join Examples.newline
            (firstn 1 (tostring_lines Examples.indented_xml 4 false)
               ++ ["    ..."; "    ..."]
               ++ [last (tostring_lines Examples.indented_xml 4 false)
                     EmptyString]))).
Proof.
  intros H. specialize (H eq_refl eq_refl).
  rewrite tostring_truncated_example in H. discriminate H.
Qed.

(** The last line of the list is not always the end tag of the root: the
    backend writes the tail of the element after it, and a tail on a line
    of its own is the last line.  The end tag is then among the lines that
    the truncation leaves out. *)
Example tostring_truncated_tail :
  etree_tostring ""
    (Str ("<r>" ++ Examples.newline ++ "  <a />" ++ Examples.newline
            ++ "  <b />" ++ Examples.newline ++ "  <c />"
            ++ Examples.newline ++ "</r>" ++ Examples.newline
            ++ "tail text")%string)
    (Some 1%Z) 4 false
  = Text ("<r>" ++ Examples.newline ++ "..." ++ Examples.newline
            ++ "..." ++ Examples.newline ++ "tail text")%string.
Proof. reflexivity. Qed.

(** The lines do not always come out with [indent] in the place of
    [min_indent]: with an indentation of two dashes [start] is zero here,
    the lines that start with the two blanks of [min_indent] are returned
    as they are, and the first line, which does not, gets the dashes. *)
Example tostring_truncated_dashes :
  etree_tostring "--" (Str Examples.indented_xml) (Some 1%Z) 4 false
  = Text ("--<r>" ++ Examples.newline ++ "    ..." ++ Examples.newline
            ++ "    ..." ++ Examples.newline ++ "  </r>")%string.
Proof. reflexivity. Qed.

(** Lines that hold nothing between the first and the last one leave
    [child_indent] without a value: [min] is called on an empty sequence. *)
Example tostring_blank_inner_lines :
  etree_tostring ""
    (Str ("<a>" ++ Examples.newline ++ Examples.newline ++ "</a>")%string)
    (Some 0%Z) 4 false
  = Failed ValueError.
Proof. reflexivity. Qed.

(* ================================================================= *)
(** ** Path indexer: the nodes visited, filters and positions *)

(** The nodes kept below a node are nodes of the tree, and an identity
    occurs once among them when it occurs once in the tree. *)
Lemma survivors_NoDup (selector : Element -> bool) (e : Element) :
  NoDup (map eid (nodes e)) -> NoDup (map eid (survivors selector e)).
Proof.
  induction e as [i t a x l cs IH] using Element_ind.
  cbn [nodes survivors children map eid]. intros Hnd.
  apply NoDup_cons_iff in Hnd. destruct Hnd as [Hhead Hrest].
  constructor.
  - intros Hin. apply Hhead. apply in_map_iff in Hin.
    destruct Hin as (n & Hn & Hin). rewrite <- Hn. apply in_map.
    rewrite flat_map_kept_filter in Hin. apply in_flat_map in Hin.
    destruct Hin as (c & Hc & Hin). apply filter_In in Hc.
    apply in_flat_map. exists c. split; [tauto|].
    now apply survivors_nodes with selector.
  - clear Hhead. induction cs as [|c cs IHcs]; [constructor|].
    inversion IH as [|? ? Hc Hcs]; subst.
    cbn [flat_map] in Hrest. rewrite map_app in Hrest.
    pose proof (NoDup_app_remove_l _ _ Hrest) as Hr.
    pose proof (NoDup_app_remove_r _ _ Hrest) as Hl.
    cbn [flat_map_kept]. destruct (selector c); [now apply IHcs|].
    rewrite map_app. apply NoDup_app; [now apply Hc | now apply IHcs|].
    intros j Hj1 Hj2.
    apply in_map_iff in Hj1. destruct Hj1 as (n1 & Hn1 & Hin1).
    apply in_map_iff in Hj2. destruct Hj2 as (n2 & Hn2 & Hin2).
    rewrite flat_map_kept_filter in Hin2. apply in_flat_map in Hin2.
    destruct Hin2 as (d & Hd & Hin2). apply filter_In in Hd.
    assert (H1 : In j (map eid (nodes c)))
      by (rewrite <- Hn1; apply in_map;
          now apply survivors_nodes with selector).
    assert (H2 : In j (map eid (flat_map nodes cs))).
    { rewrite <- Hn2. apply in_map. apply in_flat_map. exists d.
      split; [tauto|]. now apply survivors_nodes with selector. }
    clear - Hrest H1 H2. induction (map eid (nodes c)) as [|k ks IHk];
      [destruct H1|].
    cbn [app] in Hrest. apply NoDup_cons_iff in Hrest.
    destruct Hrest as [Hk Hks]. destruct H1 as [->|H1]; [|now apply IHk].
    apply Hk. apply in_or_app. now right.
Qed.

Section Visits.
Context {Q : QNames}.

Lemma iterpath_children_elements
  (rec : Element -> string -> list (Element * string)) (path : string)
  (namespaces : option Py.dict) (cs : list Element) :
  (forall c p, In c cs -> map fst (rec c p) = elements c) ->
  forall positions,
    map fst (iterpath_children rec path namespaces positions cs)
    = flat_map_kept (fun c => callable (tag c)) elements cs.
Proof.
  induction cs as [|child rest IH]; intros Hrec positions; [reflexivity|].
  assert (Hrest : forall c p, In c rest -> map fst (rec c p) = elements c)
    by (intros c p Hc; apply Hrec; now right).
  cbn [iterpath_children flat_map_kept].
  destruct (callable (tag child)); [now apply IH|].
  destruct (counter_get positions (tag child));
    rewrite map_app, (Hrec child _ (or_introl eq_refl)), IH by exact Hrest;
    reflexivity.
Qed.

(** Without a filter the generator yields the nodes [elements], in this
    order, whatever the paths are. *)
Lemma etree_iterpath_elements (root : Element) :
  forall (path : string) (namespaces : option Py.dict) (add_position : bool),
    map fst (etree_iterpath root None path namespaces add_position)
    = elements root.
Proof.
  induction root as [i t a x l cs IH] using Element_ind.
  intros path namespaces add_position.
  rewrite etree_iterpath_unfold. unfold emitted. cbn [effective_filter].
  cbn [app map fst]. unfold elements at 1. cbn [survivors children]. f_equal.
  apply (iterpath_children_elements _ path namespaces cs).
  intros c p Hc. rewrite Forall_forall in IH. now apply IH.
Qed.

Lemma passes_filter_effective (f : option Tag) (e : Element) :
  passes_filter (effective_filter f) e = passes_filter f e.
Proof. unfold passes_filter. now rewrite effective_filter_idem. Qed.

Lemma iterpath_children_filter
  (rec rec0 : Element -> string -> list (Element * string))
  (test : Element * string -> bool) (path : string)
  (namespaces : option Py.dict) (cs : list Element) :
  (forall c p, In c cs -> rec c p = filter test (rec0 c p)) ->
  forall positions,
    iterpath_children rec path namespaces positions cs
    = filter test (iterpath_children rec0 path namespaces positions cs).
Proof.
  induction cs as [|child rest IH]; intros Hrec positions; [reflexivity|].
  assert (Hrest : forall c p, In c rest -> rec c p = filter test (rec0 c p))
    by (intros c p Hc; apply Hrec; now right).
  cbn [iterpath_children].
  destruct (callable (tag child)); [now apply IH|].
  destruct (counter_get positions (tag child));
    rewrite filter_app, (Hrec child _ (or_introl eq_refl)), IH by exact Hrest;
    reflexivity.
Qed.

(** The generator under a filter yields, of what it yields without one,
    the pairs whose node passes the filter. *)
Lemma etree_iterpath_filter (root : Element) :
  forall (f : option Tag) (path : string) (namespaces : option Py.dict)
         (add_position : bool),
    etree_iterpath root f path namespaces add_position
    = filter (fun ep => passes_filter f (fst ep))
        (etree_iterpath root None path namespaces add_position).
Proof.
  induction root as [i t a x l cs IH] using Element_ind.
  intros f path namespaces add_position.
  rewrite !etree_iterpath_unfold, filter_app. f_equal.
  - unfold emitted, passes_filter. cbn [effective_filter filter fst].
    destruct (effective_filter f) as [u|]; [|reflexivity].
    destruct (tag_eqb _ u); reflexivity.
  - cbn [effective_filter]. apply iterpath_children_filter.
    intros c p Hc. rewrite Forall_forall in IH. rewrite (IH c Hc).
    apply filter_ext. intros ep. apply passes_filter_effective.
Qed.

End Visits.

Lemma flat_map_ext_on (A B : Type) (f g : A -> list B) (l : list A) :
  (forall x, In x l -> f x = g x) -> flat_map f l = flat_map g l.
Proof.
  induction l as [|x l IH]; intros H; simpl; [reflexivity|].
  rewrite (H x (or_introl eq_refl)), IH; [reflexivity|].
  intros y Hy. apply H. now right.
Qed.

Section VisitsProperties.
Context {Q : QNames}.

(** X1.  Called without a tag filter, [etree_iterpath] yields the node it
    is called on and then, child after child in document order, what it
    yields for every child whose tag is not callable: a comment or a
    processing instruction is left out with everything below it, and no
    other node is. *)
Theorem iterpath_visits_elements (root : Element) (path : string)
  (namespaces : option Py.dict) (add_position : bool) :
  map fst (etree_iterpath root None path namespaces add_position)
  = elements root.
Proof. apply etree_iterpath_elements. Qed.

(** X2.  A tag filter only selects among the pairs that the unfiltered
    iteration yields: the nodes and their paths are those of the call
    without filter, kept when the tag of the node is the filter, and the
    filter ["*"] keeps them all. *)
Theorem iterpath_filter_selects (root : Element) (path : string)
  (namespaces : option Py.dict) (add_position : bool) :
  (forall t : Tag,
      t <> Name "*" ->
      etree_iterpath root (Some t) path namespaces add_position
      = filter (fun ep => tag_eqb (tag (fst ep)) t)
          (etree_iterpath root None path namespaces add_position))
  /\ etree_iterpath root (Some (Name "*")) path namespaces add_position
     = etree_iterpath root None path namespaces add_position.
Proof.
  split.
  - intros t Ht. rewrite etree_iterpath_filter. apply filter_ext.
    intros ep. unfold passes_filter.
    assert (He : effective_filter (Some t) = Some t).
    { destruct t as [s|f]; [|reflexivity]. unfold effective_filter.
      destruct s as [|c s]; [reflexivity|].
      destruct c as [[] [] [] [] [] [] [] []]; try reflexivity.
      destruct s; [congruence | reflexivity]. }
    now rewrite He.
  - rewrite etree_iterpath_filter.
    apply forallb_filter_id. now apply forallb_forall.
Qed.

Lemma qualified_children_plain (path : string)
  (namespaces : option Py.dict) (siblings : list Element) :
  forall cs before,
    (forall c, In c cs -> callable (tag c) = false ->
               occurrences (tag c) (map tag siblings) <= 1) ->
    qualified_children path namespaces siblings before cs
    = qualified_children path namespaces [] before cs.
Proof.
  induction cs as [|c cs IH]; intros before H; [reflexivity|].
  cbn [qualified_children]. rewrite IH by (intros; apply H; [now right|auto]).
  destruct (callable (tag c)) eqn:Ec; [reflexivity|].
  replace (position_qualifier siblings before c) with EmptyString.
  - reflexivity.
  - symmetry. apply position_qualifier_empty. apply H; [now left | exact Ec].
Qed.

Lemma qualified_children_In (path : string) (namespaces : option Py.dict)
  (siblings : list Element) :
  forall cs before cp,
    In cp (qualified_children path namespaces siblings before cs) ->
    In (fst cp) cs.
Proof.
  induction cs as [|d cs IH]; intros before cp Hcp; [destruct Hcp|].
  cbn [qualified_children] in Hcp. apply in_app_or in Hcp.
  destruct Hcp as [Hcp|Hcp].
  - destruct (callable (tag d)); [destruct Hcp|].
    destruct Hcp as [<-|[]]. now left.
  - right. eapply IH; eauto.
Qed.

Lemma iterpath_children_plain
  (rec : Element -> string -> list (Element * string)) (path : string)
  (namespaces : option Py.dict) (cs : list Element) :
  iterpath_children rec path namespaces [] cs
  = flat_map (fun cp => rec (fst cp) (snd cp))
      (qualified_children path namespaces [] [] cs).
Proof. now apply iterpath_children_qualified. Qed.

Lemma etree_iterpath_positions_unused (root : Element) :
  distinct_sibling_tags root ->
  forall (f : option Tag) (path : string) (namespaces : option Py.dict),
    etree_iterpath root f path namespaces true
    = etree_iterpath root f path namespaces false.
Proof.
  induction root as [i t a x l cs IH] using Element_ind.
  intros Hd f path namespaces.
  rewrite !etree_iterpath_unfold. f_equal.
  cbn [children].
  change (initial_positions false cs) with (@nil (Tag * nat)).
  rewrite iterpath_children_plain.
  rewrite iterpath_children_qualified with (siblings := cs) (before := [])
    by (intros s; now rewrite initial_positions_get).
  rewrite qualified_children_plain.
  - apply flat_map_ext_on. intros [c p] Hcp. cbn [fst snd].
    assert (Hc : In c cs).
    { apply (qualified_children_In _ _ _ _ _ _ Hcp). }
    rewrite Forall_forall in IH. apply IH; [exact Hc|].
    intros n d Hn Hdn. apply Hd; [|exact Hdn].
    apply nodes_child with c; [exact Hc | exact Hn].
  - intros c Hc Hcall.
    apply (Hd (mkElement i t a x l cs) c);
      [apply nodes_self | exact Hc | exact Hcall].
Qed.

(** X3.  In a tree in which no node has two element children with the same
    tag, [add_position] changes nothing: the generator yields the same
    nodes with the same paths, none of which has a qualifier. *)
Theorem iterpath_positions_unused (root : Element) (tag_filter : option Tag)
  (path : string) (namespaces : option Py.dict) :
  distinct_sibling_tags root ->
  etree_iterpath root tag_filter path namespaces true
  = etree_iterpath root tag_filter path namespaces false.
Proof. intros H. now apply etree_iterpath_positions_unused. Qed.

End VisitsProperties.

(** The theorem on a root with the children [a] and [b]. *)
Lemma iterpath_positions_unused_witness :
  distinct_sibling_tags
    (Examples.node 0 "r" [Examples.node 1 "a" []; Examples.node 2 "b" []])
  /\ @etree_iterpath SpecQNames.spec_qnames
       (Examples.node 0 "r" [Examples.node 1 "a" []; Examples.node 2 "b" []])
       None "." None true
     = @etree_iterpath SpecQNames.spec_qnames
         (Examples.node 0 "r" [Examples.node 1 "a" []; Examples.node 2 "b" []])
         None "." None false.
Proof.
  assert (H : distinct_sibling_tags
                (Examples.node 0 "r"
                   [Examples.node 1 "a" []; Examples.node 2 "b" []])).
  { intros n c Hn Hc _. simpl in Hn.
    destruct Hn as [<-|[<-|[<-|[]]]]; simpl in Hc.
    - destruct Hc as [<-|[<-|[]]]; simpl; auto.
    - destruct Hc.
    - destruct Hc. }
  split; [exact H|].
  exact (@iterpath_positions_unused SpecQNames.spec_qnames _ None "." None H).
Defined.

(* ================================================================= *)
(** ** Path indexer: the path of a node of the tree *)

Lemma first_path_unique (e : Element) (p : string)
  (l : list (Element * string)) :
  NoDup (map (fun ep => eid (fst ep)) l) -> In (e, p) l ->
  first_path (fun x => is_ x e) l = Some p.
Proof.
  induction l as [|[d q] l IH]; intros Hnd Hin; [destruct Hin|].
  cbn [map fst] in Hnd. apply NoDup_cons_iff in Hnd.
  destruct Hnd as [Hhead Hl]. cbn [first_path].
  destruct Hin as [Heq|Hin].
  - inversion Heq; subst. unfold is_. now rewrite Nat.eqb_refl.
  - destruct (is_ d e) eqn:E; [|now apply IH].
    unfold is_ in E. apply Nat.eqb_eq in E. exfalso. apply Hhead.
    rewrite E. change (eid e) with ((fun ep : Element * string =>
                                       eid (fst ep)) (e, p)).
    now apply in_map.
Qed.

Lemma first_path_some (test : Element -> bool) (p : string)
  (l : list (Element * string)) :
  first_path test l = Some p -> exists e, In (e, p) l /\ test e = true.
Proof.
  induction l as [|[d q] l IH]; simpl; [discriminate|].
  destruct (test d) eqn:E.
  - intros H. inversion H; subst. exists d. auto.
  - intros H. destruct (IH H) as (e & He & Ht). exists e. auto.
Qed.

Lemma filter_NoDup_map (A B : Type) (g : A -> B) (f : A -> bool)
  (l : list A) :
  NoDup (map g l) -> NoDup (map g (filter f l)).
Proof.
  induction l as [|x l IH]; simpl; [auto|]. intros Hnd.
  apply NoDup_cons_iff in Hnd. destruct Hnd as [Hx Hl].
  destruct (f x); simpl; [|auto].
  constructor; [|auto]. intros Hin. apply Hx.
  apply in_map_iff in Hin. destruct Hin as (y & Hy & Hin).
  apply filter_In in Hin. rewrite <- Hy. apply in_map. tauto.
Qed.

Lemma passes_own_tag (e : Element) : passes_filter (Some (tag e)) e = true.
Proof.
  unfold passes_filter.
  destruct (effective_filter (Some (tag e))) as [t|] eqn:E; [|reflexivity].
  assert (Ht : t = tag e).
  { unfold effective_filter in E. destruct (tag e) as [s|f]; [|congruence].
    destruct s as [|c s]; [congruence|].
    destruct c as [[] [] [] [] [] [] [] []]; try congruence.
    destruct s; congruence. }
  subst t. apply tag_eqb_refl.
Qed.

Lemma passes_filter_tag (elem e : Element) :
  passes_filter (Some (tag elem)) e = true ->
  tag e = tag elem \/ tag elem = Name "*".
Proof.
  unfold passes_filter.
  destruct (effective_filter (Some (tag elem))) as [t|] eqn:E.
  - intros H. left. apply tag_eqb_eq in H. rewrite H.
    unfold effective_filter in E. destruct (tag elem) as [s|f]; [|congruence].
    destruct s as [|c s]; [congruence|].
    destruct c as [[] [] [] [] [] [] [] []]; try congruence.
    destruct s; congruence.
  - intros _. right.
    unfold effective_filter in E. destruct (tag elem) as [s|f]; [|congruence].
    destruct s as [|c s]; [congruence|].
    destruct c as [[] [] [] [] [] [] [] []]; try congruence.
    destruct s; [reflexivity | congruence].
Qed.

Section PathOfNode.
Context {Q : QNames}.

Lemma etree_getpath_unfold (elem root : Element)
  (namespaces : option Py.dict) (relative add_position parent_path : bool) :
  etree_getpath elem root namespaces relative add_position parent_path
  = if negb parent_path then
      first_path (fun e => is_ e elem)
        (etree_iterpath root (Some (tag elem))
           (base_path root namespaces relative) namespaces add_position)
    else if elem_in elem root then Some (base_path root namespaces relative)
    else
      first_path (fun e => elem_in elem e)
        (etree_iterpath root (Some (tag elem))
           (base_path root namespaces relative) namespaces add_position).
Proof. reflexivity. Qed.

(** X4.  In a tree in which no object occurs twice, the path of a node is
    the path under which the iteration yields it: for every pair
    [(e, p)] that [etree_iterpath] yields from [root] without filter and
    from the base path, [etree_getpath] returns [p] for [e]; for [root]
    itself this is the base path. *)
Theorem getpath_of_yielded (root e : Element) (p : string)
  (namespaces : option Py.dict) (relative add_position : bool) :
  well_formed root ->
  In (e, p)
    (etree_iterpath root None (base_path root namespaces relative)
       namespaces add_position) ->
  etree_getpath e root namespaces relative add_position false = Some p.
Proof.
  intros Hwf Hin. rewrite etree_getpath_unfold. cbn [negb].
  rewrite etree_iterpath_filter. apply first_path_unique.
  - apply filter_NoDup_map.
    rewrite <- (map_map fst eid), etree_iterpath_elements.
    now apply survivors_NoDup.
  - apply filter_In. split; [exact Hin|]. apply passes_own_tag.
Qed.

(** X5.  What a returned path means.  Without [parent_path] it is the path
    of a yielded node that is the object [elem].  With [parent_path] it is
    the base path when [elem] is a child of [root], and otherwise the path
    of a yielded node that has [elem] among its children and that carries
    the tag of [elem] (any tag when that tag is ["*"]): a parent with
    another tag is not looked at. *)
Theorem getpath_returns (elem root : Element) (p : string)
  (namespaces : option Py.dict) (relative add_position parent_path : bool) :
  etree_getpath elem root namespaces relative add_position parent_path
  = Some p ->
  if parent_path then
    (elem_in elem root = true /\ p = base_path root namespaces relative)
    \/ (elem_in elem root = false
        /\ exists e,
            In (e, p)
              (etree_iterpath root None (base_path root namespaces relative)
                 namespaces add_position)
            /\ elem_in elem e = true
            /\ (tag e = tag elem \/ tag elem = Name "*"))
  else
    exists e,
      In (e, p)
        (etree_iterpath root None (base_path root namespaces relative)
           namespaces add_position)
      /\ eid e = eid elem.
Proof.
  rewrite etree_getpath_unfold, etree_iterpath_filter.
  destruct parent_path; cbn [negb].
  - destruct (elem_in elem root).
    + intros H. left. split; [reflexivity | congruence].
    + intros H. right. split; [reflexivity|].
      apply first_path_some in H. destruct H as (e & He & Hin).
      apply filter_In in He. destruct He as [He Hpass]. cbn [fst] in Hpass.
      exists e. split; [exact He|]. split; [exact Hin|].
      now apply passes_filter_tag.
  - intros H. apply first_path_some in H. destruct H as (e & He & His).
    apply filter_In in He. exists e. split; [tauto|].
    unfold is_ in His. now apply Nat.eqb_eq.
Qed.

End PathOfNode.

(** The theorem on the child [c] of the second child [a] of a root, with
    an absolute path and a prefix for the namespace of the root. *)
Lemma getpath_of_yielded_witness :
  well_formed
    (Examples.node 0 "{urn:x}r"
       [Examples.node 1 "a" [];
        Examples.node 2 "a" [Examples.node 3 "c" []]])
  /\ In (Examples.node 3 "c" [], "/x:r/a[2]/c")
       (@etree_iterpath SpecQNames.spec_qnames
          (Examples.node 0 "{urn:x}r"
             [Examples.node 1 "a" [];
              Examples.node 2 "a" [Examples.node 3 "c" []]])
          None
          (@base_path SpecQNames.spec_qnames
             (Examples.node 0 "{urn:x}r"
                [Examples.node 1 "a" [];
                 Examples.node 2 "a" [Examples.node 3 "c" []]])
             (Some [("x", "urn:x")]) false)
          (Some [("x", "urn:x")]) true)
  /\ @etree_getpath SpecQNames.spec_qnames
       (Examples.node 3 "c" [])
       (Examples.node 0 "{urn:x}r"
          [Examples.node 1 "a" [];
           Examples.node 2 "a" [Examples.node 3 "c" []]])
       (Some [("x", "urn:x")]) false true false
     = Some "/x:r/a[2]/c".
Proof.
  assert (Hwf : well_formed
                  (Examples.node 0 "{urn:x}r"
                     [Examples.node 1 "a" [];
                      Examples.node 2 "a" [Examples.node 3 "c" []]])).
  { unfold well_formed. simpl.
    repeat constructor; simpl; intuition discriminate. }
  assert (Hin : In (Examples.node 3 "c" [], "/x:r/a[2]/c")
       (@etree_iterpath SpecQNames.spec_qnames
          (Examples.node 0 "{urn:x}r"
             [Examples.node 1 "a" [];
              Examples.node 2 "a" [Examples.node 3 "c" []]])
          None
          (@base_path SpecQNames.spec_qnames
             (Examples.node 0 "{urn:x}r"
                [Examples.node 1 "a" [];
                 Examples.node 2 "a" [Examples.node 3 "c" []]])
             (Some [("x", "urn:x")]) false)
          (Some [("x", "urn:x")]) true)).
  { do 3 right. left. reflexivity. }
  split; [exact Hwf|]. split; [exact Hin|].
  exact (@getpath_of_yielded SpecQNames.spec_qnames _ _ _
           (Some [("x", "urn:x")]) false true Hwf Hin).
Defined.

(** The absolute path of the root: its tag is shown with the prefix that
    the mapping gives, a mapping of one item included, and as it is
    written when the mapping is empty or absent. *)
Example getpath_root_prefixed :
  let root := Examples.node 0 "{urn:x}r" [] in
  @etree_getpath SpecQNames.spec_qnames root root (Some [("x", "urn:x")])
    false false false
  = Some "/x:r"
  /\ @etree_getpath SpecQNames.spec_qnames root root (Some [])
       false false false
     = Some "/{urn:x}r"
  /\ @etree_getpath SpecQNames.spec_qnames root root None
       false false false
     = Some "/{urn:x}r".
Proof. repeat split. Qed.

(** The theorem on a node whose parent carries its tag. *)
Lemma getpath_returns_witness :
  @etree_getpath SpecQNames.spec_qnames
    (Examples.node 2 "a" [])
    (Examples.node 0 "r" [Examples.node 1 "a" [Examples.node 2 "a" []]])
    None true false true
  = Some "./a"
  /\ ((elem_in (Examples.node 2 "a" [])
         (Examples.node 0 "r" [Examples.node 1 "a" [Examples.node 2 "a" []]])
       = true
       /\ "./a" = @base_path SpecQNames.spec_qnames
                    (Examples.node 0 "r"
                       [Examples.node 1 "a" [Examples.node 2 "a" []]])
                    None true)
      \/ (elem_in (Examples.node 2 "a" [])
            (Examples.node 0 "r"
               [Examples.node 1 "a" [Examples.node 2 "a" []]])
          = false
          /\ exists e,
              In (e, "./a")
                (@etree_iterpath SpecQNames.spec_qnames
                   (Examples.node 0 "r"
                      [Examples.node 1 "a" [Examples.node 2 "a" []]])
                   None
                   (@base_path SpecQNames.spec_qnames
                      (Examples.node 0 "r"
                         [Examples.node 1 "a" [Examples.node 2 "a" []]])
                      None true)
                   None false)
              /\ elem_in (Examples.node 2 "a" []) e = true
              /\ (tag e = tag (Examples.node 2 "a" [])
                  \/ tag (Examples.node 2 "a" []) = Name "*"))).
Proof.
  assert (H : @etree_getpath SpecQNames.spec_qnames
                (Examples.node 2 "a" [])
                (Examples.node 0 "r"
                   [Examples.node 1 "a" [Examples.node 2 "a" []]])
                None true false true
              = Some "./a") by reflexivity.
  split; [exact H|].
  exact (@getpath_returns SpecQNames.spec_qnames _ _ _ None true false true H).
Defined.

(* ================================================================= *)
(** ** Schema locations: what a hint is made of *)

Lemma evens_In (A : Type) (x : A) (l : list A) :
  In x (Py.evens l) -> In x l.
Proof.
  induction l as [|a|a b l IH] using list_ind2; simpl; auto.
  intros [->|H]; auto.
Qed.

Lemma odds_In (A : Type) (x : A) (l : list A) : In x (Py.odds l) -> In x l.
Proof.
  unfold Py.odds. destruct l as [|a l]; simpl; [tauto|].
  intros H. right. now apply evens_In.
Qed.

Lemma split_token (s t : string) :
  In t (Py.split s) -> t <> EmptyString /\ spaceless t.
Proof.
  intros H. pose proof (split_tokens s) as Hall.
  rewrite Forall_forall in Hall. exact (Hall t H).
Qed.

(** X6.  Every hint that [etree_iter_location_hints] yields has a location
    that is not empty, and neither its namespace nor its location holds a
    space character: both are whole tokens of the attribute, or the empty
    namespace. *)
Theorem location_hints_tokens {Q : QNames} (elem : Element)
  (ns url : string) :
  In (ns, url) (etree_iter_location_hints elem) ->
  url <> EmptyString /\ spaceless url /\ spaceless ns.
Proof.
  unfold etree_iter_location_hints. intros H. apply in_app_or in H.
  destruct H as [H|H].
  - destruct (Py.dict_get (attrib elem) XSI_SCHEMA_LOCATION) as [v|];
      [|destruct H].
    pose proof (in_combine_l _ _ _ _ H) as Hns.
    pose proof (in_combine_r _ _ _ _ H) as Hurl.
    apply evens_In, split_token in Hns.
    apply odds_In, split_token in Hurl. tauto.
  - destruct (Py.dict_get (attrib elem) XSI_NONS_SCHEMA_LOCATION) as [v|];
      [|destruct H].
    apply in_map_iff in H. destruct H as (u & Heq & Hu).
    inversion Heq; subst. apply split_token in Hu.
    split; [tauto|]. split; [tauto|]. intros c [].
Qed.

(** The theorem on an element with one pair in [xsi:schemaLocation]. *)
Lemma location_hints_tokens_witness :
  In ("urn:a", "a.xsd")
    (@etree_iter_location_hints SpecQNames.spec_qnames
       (mkElement 0 (Name "r")
          [(SpecQNames.XSI_SCHEMA_LOCATION, " urn:a  a.xsd ")] None None []))
  /\ "a.xsd" <> EmptyString /\ spaceless "a.xsd" /\ spaceless "urn:a".
Proof.
  assert (H : In ("urn:a", "a.xsd")
    (@etree_iter_location_hints SpecQNames.spec_qnames
       (mkElement 0 (Name "r")
          [(SpecQNames.XSI_SCHEMA_LOCATION, " urn:a  a.xsd ")] None None [])))
    by (left; reflexivity).
  split; [exact H|].
  exact (@location_hints_tokens SpecQNames.spec_qnames _ _ _ H).
Defined.

(* ================================================================= *)
(** ** Serializer: errors, lines without indentation, reindentation *)

Lemma min_first_non_blank_none (lines : list string) :
  min_first_non_blank lines = None
  <-> Forall (fun l => first_non_blank l = None) lines.
Proof.
  induction lines as [|l ls IH]; simpl.
  - split; [constructor | reflexivity].
  - destruct (first_non_blank l) as [a|] eqn:El.
    + split.
      * destruct (min_first_non_blank ls); discriminate.
      * intros H. inversion H; subst. congruence.
    + rewrite IH. split.
      * intros H. constructor; [exact El | exact H].
      * intros H. now inversion H.
Qed.

Lemma tostring_lines_last_indent (xml_text : string) (spaces_for_tab : nat)
  (xml_declaration : bool) :
  tostring_lines xml_text spaces_for_tab xml_declaration <> [] ->
  exists n,
    first_non_blank
      (last (tostring_lines xml_text spaces_for_tab xml_declaration)
         EmptyString)
    = Some n.
Proof.
  intros Hne. apply first_non_blank_some.
  now apply drop_trailing_blank_last.
Qed.

Lemma tostring_lines_declaration (xml_text : string) (spaces_for_tab : nat) :
  tostring_lines xml_text spaces_for_tab true <> [].
Proof.
  unfold tostring_lines. cbn [app].
  set (rest := Py.splitlines _). cbn [drop_trailing_blank].
  destruct (drop_trailing_blank rest); [|discriminate].
  change (Py.truthy (Py.strip xml_declaration_line)) with true. discriminate.
Qed.

Section SerializerErrors.
Variable indent : string.
Variable xml_text : string.
Variable max_lines : option Z.
Variable spaces_for_tab : nat.
Variable xml_declaration : bool.

Let lines := tostring_lines xml_text spaces_for_tab xml_declaration.

Lemma tostring_str_index_error :
  tostring_str indent xml_text max_lines spaces_for_tab xml_declaration
  = Failed IndexError
  <-> tostring_lines xml_text spaces_for_tab xml_declaration = [].
Proof.
  unfold tostring_str. fold lines.
  destruct lines as [|l0 ls] eqn:El; [tauto|].
  split; [|discriminate].
  destruct (last_indent_of (l0 :: ls)); [|discriminate].
  destruct (child_indent_of (l0 :: ls)); discriminate.
Qed.

Lemma tostring_str_value_error :
  tostring_str indent xml_text max_lines spaces_for_tab xml_declaration
  = Failed ValueError
  <-> 2 < List.length
            (tostring_lines xml_text spaces_for_tab xml_declaration)
      /\ Forall (fun l => first_non_blank l = None)
           (Py.list_inner
              (tostring_lines xml_text spaces_for_tab xml_declaration)).
Proof.
  unfold tostring_str. fold lines.
  assert (Hlast : lines <> [] -> exists li, last_indent_of lines = Some li).
  { intros Hne. destruct (@tostring_lines_last_indent _ _ _ Hne) as [n Hn].
    exists (Py.spaces n). unfold last_indent_of. fold lines in Hn.
    now rewrite Hn. }
  assert (Hchild :
    child_indent_of lines
    = if 2 <? List.length lines
      then option_map Py.spaces (min_first_non_blank (Py.list_inner lines))
      else last_indent_of lines)
    by reflexivity.
  rewrite <- min_first_non_blank_none.
  destruct lines as [|l0 ls] eqn:El.
  - split; [discriminate|]. simpl. lia.
  - destruct Hlast as [li Hli]; [discriminate|].
    rewrite Hli, Hchild.
    destruct (2 <? List.length (l0 :: ls)) eqn:E2.
    + apply Nat.ltb_lt in E2.
      destruct (min_first_non_blank (Py.list_inner (l0 :: ls)));
        cbn [option_map]; split; try tauto; try discriminate.
      intros [_ H]. discriminate H.
    + apply Nat.ltb_ge in E2. rewrite Hli.
      split; [discriminate|]. intros [H _]. lia.
Qed.

Lemma tostring_str_failed (e : exception) :
  tostring_str indent xml_text max_lines spaces_for_tab xml_declaration
  = Failed e ->
  e = IndexError \/ e = ValueError.
Proof.
  unfold tostring_str. fold lines.
  destruct lines as [|l0 ls]; [intros H; inversion H; now left|].
  destruct (last_indent_of (l0 :: ls));
    [|intros H; inversion H; now right].
  destruct (child_indent_of (l0 :: ls));
    [discriminate | intros H; inversion H; now right].
Qed.

End SerializerErrors.

(** X7.  The three errors of [etree_tostring] after serialization, and no
    other.  It raises [TypeError] exactly when the serialization is
    [bytes]; [IndexError] exactly when it is a [str] of which no line is
    left once the blank lines at the end are dropped, which a requested XML
    declaration excludes; [ValueError] exactly when it is a [str] of which
    more than two lines are left, every line strictly between the first and
    the last holding blanks only; in all other cases it returns a
    string. *)
Theorem tostring_errors (indent : string) (xml_text : serialized)
  (max_lines : option Z) (spaces_for_tab : nat) (xml_declaration : bool) :
  (etree_tostring indent xml_text max_lines spaces_for_tab xml_declaration
   = Failed TypeError
   <-> exists b, xml_text = Bytes b)
  /\ (etree_tostring indent xml_text max_lines spaces_for_tab xml_declaration
      = Failed IndexError
      <-> exists s,
            xml_text = Str s
            /\ tostring_lines s spaces_for_tab xml_declaration = [])
  /\ (etree_tostring indent xml_text max_lines spaces_for_tab xml_declaration
      = Failed ValueError
      <-> exists s,
            xml_text = Str s
            /\ 2 < List.length
                      (tostring_lines s spaces_for_tab xml_declaration)
            /\ Forall (fun l => first_non_blank l = None)
                 (Py.list_inner
                    (tostring_lines s spaces_for_tab xml_declaration)))
  /\ (xml_declaration = true ->
      etree_tostring indent xml_text max_lines spaces_for_tab xml_declaration
      <> Failed IndexError)
  /\ (forall e,
        etree_tostring indent xml_text max_lines spaces_for_tab
          xml_declaration
        = Failed e ->
        e = TypeError \/ e = IndexError \/ e = ValueError).
Proof.
  destruct xml_text as [s|b]; cbn [etree_tostring].
  - split; [|split; [|split; [|split]]].
    + split.
      * intros H. apply tostring_str_failed in H.
        destruct H; discriminate.
      * intros [b Hb]. discriminate Hb.
    + rewrite tostring_str_index_error. split.
      * intros H. now exists s.
      * intros (s' & Hs & H). inversion Hs. now subst.
    + rewrite tostring_str_value_error. split.
      * intros H. now exists s.
      * intros (s' & Hs & H). inversion Hs. now subst.
    + intros -> H. apply tostring_str_index_error in H.
      now apply tostring_lines_declaration in H.
    + intros e H. apply tostring_str_failed in H. tauto.
  - split; [|split; [|split; [|split]]].
    + split; [intros _; now exists b | reflexivity].
    + split; [discriminate | intros (s & Hs & _); discriminate Hs].
    + split; [discriminate | intros (s & Hs & _); discriminate Hs].
    + discriminate.
    + intros e H. inversion H. now left.
Qed.

(** The serialization in another encoding than ['unicode']. *)
Example tostring_bytes :
  etree_tostring "" (Bytes "<a />") None 4 false = Failed TypeError.
Proof. reflexivity. Qed.

Lemma spaces_length (n : nat) : String.length (Py.spaces n) = n.
Proof. induction n; simpl; congruence. Qed.

Lemma spaces_add (a b : nat) :
  Py.spaces (a + b) = (Py.spaces a ++ Py.spaces b)%string.
Proof. induction a; simpl; congruence. Qed.

Lemma startswith_spaces (n : nat) (rest : string) :
  Py.startswith (Py.spaces n ++ rest) (Py.spaces n) = true.
Proof.
  unfold Py.startswith. induction n as [|n IH]; simpl.
  - now destruct rest.
  - rewrite IH. now destruct (ascii_dec " " " ").
Qed.

Lemma drop_spaces (k n : nat) (rest : string) :
  k <= n ->
  Py.drop k (Py.spaces n ++ rest) = (Py.spaces (n - k) ++ rest)%string.
Proof.
  revert n. induction k as [|k IH]; intros n Hk.
  - now rewrite Nat.sub_0_r.
  - destruct n as [|n]; [lia|]. simpl. apply IH. lia.
Qed.

Lemma string_app_assoc (a b c : string) :
  ((a ++ b) ++ c)%string = (a ++ b ++ c)%string.
Proof. induction a as [|x a IH]; simpl; congruence. Qed.

Lemma str_min_empty (a : string) : str_min a EmptyString = EmptyString.
Proof. destruct a; reflexivity. Qed.

Lemma reindent_identity (line : string) :
  reindent EmptyString EmptyString 0 line = line.
Proof. unfold reindent. destruct line; reflexivity. Qed.

(** X8.  The closure [reindent] puts the requested indentation in the
    place of the common one: with [indent] made of [m] blanks and
    [min_indent] of [n] blanks, a line that is not empty and starts with
    [min_indent] comes out with [indent] in front of what followed
    [min_indent], whether [m] is smaller than [n] or not. *)
Theorem reindent_retargets (m n : nat) (rest : string) :
  (Py.spaces n ++ rest)%string <> EmptyString ->
  reindent (Py.spaces m) (Py.spaces n)
    (Z.of_nat (String.length (Py.spaces n))
     - Z.of_nat (String.length (Py.spaces m)))
    (Py.spaces n ++ rest)
  = (Py.spaces m ++ rest)%string.
Proof.
  intros Hne. unfold reindent. rewrite !spaces_length.
  destruct (Py.spaces n ++ rest)%string as [|c s] eqn:El; [congruence|].
  cbn [Py.truthy negb]. rewrite <- El, startswith_spaces.
  unfold Py.slice_from.
  destruct (0 <=? Z.of_nat n - Z.of_nat m)%Z eqn:E0.
  - apply Z.leb_le in E0.
    assert (Hneg : (Z.of_nat n - Z.of_nat m <? 0)%Z = false)
      by (apply Z.ltb_ge; lia).
    rewrite Hneg. replace (Z.to_nat (Z.of_nat n - Z.of_nat m)) with (n - m)
      by lia.
    rewrite drop_spaces by lia. do 2 f_equal. lia.
  - apply Z.leb_gt in E0.
    assert (Hneg : (Z.of_nat n - Z.of_nat m <? 0)%Z = true)
      by (apply Z.ltb_lt; lia).
    rewrite Hneg, spaces_length.
    replace (Z.to_nat (Z.max 0 (Z.of_nat n - Z.of_nat m + Z.of_nat m)))
      with n by lia.
    pose proof (@drop_spaces n m EmptyString) as Hd.
    rewrite !string_app_empty_r in Hd. rewrite Hd by lia.
    rewrite <- string_app_assoc, <- spaces_add. do 2 f_equal. lia.
Qed.

(** The theorem on a line at four blanks, moved to two. *)
Lemma reindent_retargets_witness :
  (Py.spaces 4 ++ "<a />")%string <> EmptyString
  /\ reindent (Py.spaces 2) (Py.spaces 4)
       (Z.of_nat (String.length (Py.spaces 4))
        - Z.of_nat (String.length (Py.spaces 2)))
       (Py.spaces 4 ++ "<a />")
     = (Py.spaces 2 ++ "<a />")%string.
Proof.
  assert (H : (Py.spaces 4 ++ "<a />")%string <> EmptyString)
    by discriminate.
  split; [exact H|]. exact (@reindent_retargets 2 4 "<a />" H).
Defined.

(** [child_indent] has a value when [last_indent] has one and, among more
    than two lines, one between the first and the last holds something
    else than blanks. *)
Lemma child_indent_defined (lines : list string) (last_indent : string) :
  last_indent_of lines = Some last_indent ->
  (2 < List.length lines ->
   Exists (fun l => first_non_blank l <> None) (Py.list_inner lines)) ->
  exists child_indent, child_indent_of lines = Some child_indent.
Proof.
  intros Hli Hinner. unfold child_indent_of.
  destruct (2 <? List.length lines) eqn:E2; [|eauto].
  apply Nat.ltb_lt in E2. specialize (Hinner E2).
  destruct (min_first_non_blank (Py.list_inner lines)) as [n|] eqn:Em;
    [cbn [option_map]; eauto|].
  apply min_first_non_blank_none in Em. rewrite Forall_forall in Em.
  apply Exists_exists in Hinner. destruct Hinner as (l & Hin & Hl).
  exfalso. apply Hl. now apply Em.
Qed.

(** X9.  A serialization that is a [str] and whose last line starts at
    the first column comes back line for line when no indentation is asked
    for and nothing is truncated, provided that, when more than two lines
    are left, one of the lines strictly between the first and the last
    holds a character other than a blank (the call raises [ValueError]
    otherwise): the string returned is the lines, without the blank lines
    at the end, joined by newlines. *)
Theorem tostring_unindented (xml_text : string) (max_lines : option Z)
  (spaces_for_tab : nat) (xml_declaration : bool) :
  first_non_blank
    (last (tostring_lines xml_text spaces_for_tab xml_declaration)
       EmptyString)
  = Some 0 ->
  (2 < List.length (tostring_lines xml_text spaces_for_tab xml_declaration) ->
   Exists (fun l => first_non_blank l <> None)
     (Py.list_inner
        (tostring_lines xml_text spaces_for_tab xml_declaration))) ->
  (forall k, max_lines = Some k ->
             (Z.of_nat (List.length
                          (tostring_lines xml_text spaces_for_tab
                             xml_declaration)) <= k + 2)%Z) ->
  etree_tostring EmptyString (Str xml_text) max_lines spaces_for_tab
    xml_declaration
  = Text (Py.join Examples.newline
            (tostring_lines xml_text spaces_for_tab xml_declaration)).
Proof.
  intros Hlast Hinner Hmax. unfold etree_tostring, tostring_str.
  assert (Hli : last_indent_of
                  (tostring_lines xml_text spaces_for_tab xml_declaration)
                = Some EmptyString)
    by (unfold last_indent_of; now rewrite Hlast).
  destruct (child_indent_defined _ Hli Hinner) as [child_indent Hci].
  destruct (tostring_lines xml_text spaces_for_tab xml_declaration)
    as [|l0 ls] eqn:El; [discriminate Hlast|].
  rewrite Hli, Hci.
  assert (Hmin : min_indent_of (l0 :: ls) child_indent EmptyString
                 = EmptyString).
  { unfold min_indent_of. destruct (2 <? _); [apply str_min_empty|reflexivity]. }
  rewrite Hmin. cbn [String.length Z.of_nat Z.sub].
  assert (Htr : truncate max_lines child_indent (l0 :: ls) = l0 :: ls).
  { unfold truncate. destruct max_lines as [k|]; [|reflexivity].
    specialize (Hmax k eq_refl).
    destruct (k + 2 <? Z.of_nat (List.length (l0 :: ls)))%Z eqn:E;
      [|reflexivity].
    apply Z.ltb_lt in E. lia. }
  rewrite Htr. do 2 f_equal.
  rewrite <- (map_id (l0 :: ls)) at 2. apply map_ext. intros line.
  apply reindent_identity.
Qed.

(** The theorem on a root element at the first column. *)
Lemma tostring_unindented_witness :
  first_non_blank
    (last (tostring_lines
             ("<r>" ++ Examples.newline ++ "  <a />" ++ Examples.newline
                ++ "</r>" ++ Examples.newline) 4 false)
       EmptyString)
  = Some 0
  /\ (2 < List.length
             (tostring_lines
                ("<r>" ++ Examples.newline ++ "  <a />" ++ Examples.newline
                   ++ "</r>" ++ Examples.newline) 4 false) ->
      Exists (fun l => first_non_blank l <> None)
        (Py.list_inner
           (tostring_lines
              ("<r>" ++ Examples.newline ++ "  <a />" ++ Examples.newline
                 ++ "</r>" ++ Examples.newline) 4 false)))
  /\ (forall k : Z, @None Z = Some k ->
        (Z.of_nat (List.length
           (tostring_lines
              ("<r>" ++ Examples.newline ++ "  <a />" ++ Examples.newline
                 ++ "</r>" ++ Examples.newline) 4 false)) <= k + 2)%Z)
  /\ etree_tostring EmptyString
       (Str ("<r>" ++ Examples.newline ++ "  <a />" ++ Examples.newline
               ++ "</r>" ++ Examples.newline)) None 4 false
     = Text (Py.join Examples.newline
               (tostring_lines
                  ("<r>" ++ Examples.newline ++ "  <a />" ++ Examples.newline
                     ++ "</r>" ++ Examples.newline) 4 false)).
Proof.
  assert (H1 : first_non_blank
    (last (tostring_lines
             ("<r>" ++ Examples.newline ++ "  <a />" ++ Examples.newline
                ++ "</r>" ++ Examples.newline) 4 false)
       EmptyString)
  = Some 0) by reflexivity.
  assert (H2 : 2 < List.length
             (tostring_lines
                ("<r>" ++ Examples.newline ++ "  <a />" ++ Examples.newline
                   ++ "</r>" ++ Examples.newline) 4 false) ->
      Exists (fun l => first_non_blank l <> None)
        (Py.list_inner
           (tostring_lines
              ("<r>" ++ Examples.newline ++ "  <a />" ++ Examples.newline
                 ++ "</r>" ++ Examples.newline) 4 false)))
    by (intros _; apply Exists_cons_hd; discriminate).
  assert (H3 : forall k : Z, @None Z = Some k ->
    (Z.of_nat (List.length
       (tostring_lines
          ("<r>" ++ Examples.newline ++ "  <a />" ++ Examples.newline
             ++ "</r>" ++ Examples.newline) 4 false)) <= k + 2)%Z)
    by (intros k Hk; discriminate Hk).
  split; [exact H1|]. split; [exact H2|]. split; [exact H3|].
  exact (@tostring_unindented _ None 4 false H1 H2 H3).
Defined.

Lemma splitlines_chars (n : nat) :
  forall (s line : string) (c : ascii),
    String.length s <= n ->
    In line (Py.splitlines s) -> In c (list_ascii_of_string line) ->
    In c (list_ascii_of_string s) /\ Py.is_linebreak c = false.
Proof.
  induction n as [|n IH]; intros s line c Hlen Hline Hc.
  - destruct s; [destruct Hline | simpl in Hlen; lia].
  - destruct s as [|a s']; [destruct Hline|].
    cbn [String.length] in Hlen. cbn [Py.splitlines] in Hline.
    cbn [list_ascii_of_string].
    destruct (Py.is_cr a) eqn:Ecr.
    + destruct s' as [|a' s''].
      * destruct Hline as [<-|[]]. destruct Hc.
      * cbn [String.length] in Hlen. cbn [list_ascii_of_string].
        destruct (Py.is_lf a').
        -- destruct Hline as [<-|Hline]; [destruct Hc|].
           destruct (IH s'' line c) as [H1 H2]; auto; [lia|].
           split; [right; right; exact H1 | exact H2].
        -- destruct Hline as [<-|Hline]; [destruct Hc|].
           destruct (IH (String a' s'') line c) as [H1 H2]; auto;
             [cbn [String.length]; lia|].
           split; [right; exact H1 | exact H2].
    + destruct (Py.is_linebreak a) eqn:Elb.
      * destruct Hline as [<-|Hline]; [destruct Hc|].
        destruct (IH s' line c) as [H1 H2]; auto; [lia|].
        split; [right; exact H1 | exact H2].
      * destruct (Py.splitlines s') as [|l ls] eqn:Es.
        -- destruct Hline as [<-|[]]. destruct Hc as [<-|[]].
           split; [now left | exact Elb].
        -- destruct Hline as [<-|Hline].
           ++ destruct Hc as [<-|Hc]; [split; [now left | exact Elb]|].
              destruct (IH s' l c) as [H1 H2]; auto; [lia | |].
              ** rewrite Es. now left.
              ** split; [right; exact H1 | exact H2].
           ++ destruct (IH s' line c) as [H1 H2]; auto; [lia | |].
              ** rewrite Es. now right.
              ** split; [right; exact H1 | exact H2].
Qed.

Lemma spaces_chars (n : nat) (c : ascii) :
  In c (list_ascii_of_string (Py.spaces n)) -> c = " "%char.
Proof. induction n as [|n IH]; simpl; [tauto|]. intros [<-|H]; auto. Qed.

Lemma list_ascii_app (a b : string) :
  list_ascii_of_string (a ++ b)
  = (list_ascii_of_string a ++ list_ascii_of_string b)%list.
Proof. induction a as [|x a IH]; simpl; congruence. Qed.

Lemma replace_tabs_chars (n : nat) (s : string) (c : ascii) :
  In c (list_ascii_of_string (Py.replace_tabs n s)) -> Py.is_tab c = false.
Proof.
  induction s as [|a s IH]; simpl; [tauto|].
  destruct (Py.is_tab a) eqn:Ea.
  - rewrite list_ascii_app. intros H. apply in_app_or in H.
    destruct H as [H|H]; [|now apply IH].
    apply spaces_chars in H. now subst c.
  - simpl. intros [<-|H]; [exact Ea | now apply IH].
Qed.

Lemma drop_trailing_blank_In (l : string) (lines : list string) :
  In l (drop_trailing_blank lines) -> In l lines.
Proof.
  induction lines as [|x ls IH]; simpl; [tauto|].
  destruct (drop_trailing_blank ls) as [|r rs].
  - destruct (Py.truthy (Py.strip x)); [|intros []].
    intros [<-|[]]. now left.
  - intros [<-|H]; [now left|]. right. now apply IH.
Qed.

(** X10.  After [xml_text.replace('\t', ...)] and [splitlines()], no line
    that [etree_tostring] works on holds a tab or a line boundary, whatever
    [spaces_for_tab] is, the XML declaration included. *)
Theorem tostring_lines_clean (xml_text : string) (spaces_for_tab : nat)
  (xml_declaration : bool) (line : string) (c : ascii) :
  In line (tostring_lines xml_text spaces_for_tab xml_declaration) ->
  In c (list_ascii_of_string line) ->
  Py.is_tab c = false /\ Py.is_linebreak c = false.
Proof.
  unfold tostring_lines. intros Hline Hc.
  apply drop_trailing_blank_In in Hline. apply in_app_or in Hline.
  destruct Hline as [Hline|Hline].
  - destruct xml_declaration; [|destruct Hline].
    destruct Hline as [<-|[]].
    assert (Hall : forallb (fun d => negb (Py.is_tab d)
                                     && negb (Py.is_linebreak d))
                     (list_ascii_of_string xml_declaration_line) = true)
      by reflexivity.
    rewrite forallb_forall in Hall. specialize (Hall c Hc).
    apply andb_true_iff in Hall. destruct Hall as [H1 H2].
    split; now apply negb_true_iff.
  - destruct (@splitlines_chars _ _ line c (le_n _) Hline Hc) as [H1 H2].
    split; [|exact H2]. now apply replace_tabs_chars in H1.
Qed.

(** The theorem on a text with a tab and two kinds of line ends. *)
Lemma tostring_lines_clean_witness :
  In "    <a />"
    (tostring_lines
       ("<r>" ++ String "013" (String "010" (String "009" "<a />"))
          ++ Examples.newline ++ "</r>") 4 true)
  /\ In "a"%char (list_ascii_of_string "    <a />")
  /\ Py.is_tab "a" = false /\ Py.is_linebreak "a" = false.
Proof.
  assert (H1 : In "    <a />"
    (tostring_lines
       ("<r>" ++ String "013" (String "010" (String "009" "<a />"))
          ++ Examples.newline ++ "</r>") 4 true))
    by (right; right; left; reflexivity).
  assert (H2 : In "a"%char (list_ascii_of_string "    <a />"))
    by (do 5 right; left; reflexivity).
  split; [exact H1|]. split; [exact H2|].
  exact (@tostring_lines_clean _ 4 true _ _ H1 H2).
Defined.

(* ================================================================= *)
(** ** Comparator: strictness, errors and structural equality *)

Lemma and_then_pass (o k : outcome) :
  (o ;; k) = Pass <-> o = Pass /\ k = Pass.
Proof.
  destruct o; simpl;
    (split; [intros H; try discriminate H; auto
            | intros [H1 H2]; try discriminate H1; auto]).
Qed.

Lemma and_then_raised (o k : outcome) (e : exception) :
  (o ;; k) = Raised e -> o = Raised e \/ k = Raised e.
Proof. destruct o; simpl; auto; discriminate. Qed.

Lemma list_string_eqb_eq (l1 l2 : list string) :
  Py.list_string_eqb l1 l2 = true -> l1 = l2.
Proof.
  revert l2. induction l1 as [|x l1 IH]; intros [|y l2]; simpl;
    try discriminate; [reflexivity|].
  intros H. apply andb_true_iff in H. destruct H as [Hx Hl].
  apply String.eqb_eq in Hx. subst. f_equal. now apply IH.
Qed.

Lemma dict_get_key (d : Py.dict) (k : string) :
  In k (Py.dict_keys d) -> Py.dict_get d k <> None.
Proof.
  unfold Py.dict_keys. induction d as [|[k' v] d IH]; simpl; [tauto|].
  destruct (String.eqb k' k) eqn:E; [discriminate|].
  intros [Hk|Hk]; [|now apply IH].
  subst k'. now rewrite String.eqb_refl in E.
Qed.

Section ComparatorErrors.
Context {Q : QNames} {F : Floats} {R : Regex}.
Variables strict skip_comments unordered : bool.

(** The loop on the attributes reads keys that both dictionaries have. *)
Lemma attrib_loop_no_exception (e1 e2 : Element) (keys : list string) :
  (forall k, In k keys -> In k (Py.dict_keys (attrib e1))) ->
  (forall k, In k keys -> In k (Py.dict_keys (attrib e2))) ->
  forall e, attrib_loop e1 e2 keys <> Raised e.
Proof.
  induction keys as [|k ks IH]; intros H1 H2 e; simpl; [discriminate|].
  pose proof (dict_get_key _ _ (H1 k (or_introl eq_refl))) as G1.
  pose proof (dict_get_key _ _ (H2 k (or_introl eq_refl))) as G2.
  destruct (Py.dict_get (attrib e1) k); [|congruence].
  destruct (Py.dict_get (attrib e2) k); [|congruence].
  destruct (_ && _); [discriminate|].
  apply IH; intros; [apply H1 | apply H2]; now right.
Qed.

Lemma check_tag_raised (elem e1 e2 : Element) (ns : string) (e : exception) :
  fst (check_tag strict elem e1 e2 ns) = Raised e -> may_raise strict e.
Proof.
  unfold check_tag. destruct (strict || is_ e1 elem); cbn [fst].
  - destruct (tag_eqb _ _); discriminate.
  - destruct (tag_namespace (tag e1)); cbn [fst];
      [|intros H; inversion H; now left].
    destruct (tag_qname _ (tag e1)); [|intros H; inversion H; now left].
    destruct (tag_qname _ (tag e2)); [|intros H; inversion H; now left].
    destruct (tag_eqb _ _); discriminate.
Qed.

Lemma check_attrib_raised (e1 e2 : Element) (e : exception) :
  check_attrib strict e1 e2 = Raised e -> may_raise strict e.
Proof.
  unfold check_attrib.
  destruct (negb _); [|discriminate].
  destruct strict; [intros H; inversion H; now left|].
  destruct (negb (Py.list_string_eqb _ _)) eqn:E; [discriminate|].
  apply negb_false_iff, list_string_eqb_eq in E.
  intros H. exfalso. revert H. apply attrib_loop_no_exception; [tauto|].
  intros k Hk. apply (sorted_In (fun k => k)).
  rewrite <- E. now apply sorted_In.
Qed.

Lemma check_children_number_raised (e1 e2 : Element) (e : exception) :
  check_children_number skip_comments e1 e2 <> Raised e.
Proof. unfold check_children_number. destruct (_ =? _); discriminate. Qed.

Lemma check_text_raised (e1 e2 : Element) (e : exception) :
  check_text strict e1 e2 = Raised e -> may_raise strict e.
Proof.
  unfold check_text, assert_blank.
  destruct (negb _); [|discriminate].
  destruct strict; [discriminate|].
  destruct (text e1) as [t1|], (text e2) as [t2|].
  - unfold _REGEX_SPACES_sub.
    destruct (compile_template (Py.strip t1)) as [x|f1] eqn:E1.
    + intros H. inversion H; subst. right. split; [reflexivity|].
      right. now apply template_exceptions with (Py.strip t1).
    + destruct (compile_template (Py.strip t2)) as [x|f2] eqn:E2.
      * intros H. inversion H; subst. right. split; [reflexivity|].
        right. now apply template_exceptions with (Py.strip t2).
      * destruct (negb _); [|discriminate].
        destruct (float_equal _ _); discriminate.
  - destruct (Py.truthy _); discriminate.
  - destruct (Py.truthy _); discriminate.
  - intros H. inversion H. right. tauto.
Qed.

Lemma check_tail_raised (e1 e2 : Element) (e : exception) :
  check_tail strict e1 e2 = Raised e -> may_raise strict e.
Proof.
  unfold check_tail, assert_blank.
  destruct (negb _); [|discriminate].
  destruct strict; [discriminate|].
  destruct (tail e1), (text e2), (tail e2);
    repeat match goal with
      | |- context [if ?b then _ else _] => destruct b
      end;
    try discriminate; intros H; inversion H; right; tauto.
Qed.

Lemma pair_checks_raised (elem e1 e2 : Element) (ns : string)
  (e : exception) :
  (fst (check_tag strict elem e1 e2 ns) ;; check_attrib strict e1 e2
   ;; check_children_number skip_comments e1 e2 ;; check_text strict e1 e2
   ;; check_tail strict e1 e2) = Raised e ->
  may_raise strict e.
Proof.
  intros H.
  apply and_then_raised in H. destruct H as [H|H];
    [now apply check_tag_raised in H|].
  apply and_then_raised in H. destruct H as [H|H];
    [now apply check_attrib_raised in H|].
  apply and_then_raised in H. destruct H as [H|H];
    [now apply check_children_number_raised in H|].
  apply and_then_raised in H. destruct H as [H|H];
    [now apply check_text_raised in H | now apply check_tail_raised in H].
Qed.

Lemma compare_children_raised
  (rec : Element -> Element -> option outcome) (elem other : Element)
  (e : exception) :
  (forall e1 e2, rec e1 e2 = Some (Raised e) -> may_raise strict e) ->
  forall cs ns os,
    compare_children strict skip_comments rec elem other ns cs os
    = Some (Raised e) ->
    may_raise strict e.
Proof.
  intros Hrec.
  induction cs as [|e1 cs IH]; intros ns os; simpl.
  - destruct os; discriminate.
  - destruct (skip_comments && callable (tag e1)); [apply IH|].
    destruct os as [|e2 os]; [discriminate|].
    pose proof (@pair_checks_raised elem e1 e2 ns e) as Hp.
    destruct (check_tag strict elem e1 e2 ns) as [o ns']. cbn [fst] in Hp.
    destruct (o ;; _) eqn:E.
    + pose proof (Hrec e1 e2) as Hr.
      destruct (rec e1 e2) as [[]|]; try discriminate; [apply IH|].
      exact Hr.
    + discriminate.
    + intros H. inversion H; subst. now apply Hp.
Qed.

Lemma assert_equal_upto_raised (e : exception) :
  forall d elem other,
    assert_equal_upto strict skip_comments unordered d elem other
    = Some (Raised e) ->
    may_raise strict e.
Proof.
  induction d as [|d IH]; intros elem other; [discriminate|].
  simpl. apply compare_children_raised. intros e1 e2. apply IH.
Qed.

End ComparatorErrors.

(** X11.  The exceptions of [etree_elements_assert_equal].  A call ends
    with a pass, with an [AssertionError] or with one of four other
    exceptions: [TypeError], [AttributeError], [re.error] and
    [IndexError].  A [KeyError] on the attributes is never raised, since
    the keys of both nodes are compared before the values are read, nor a
    [ValueError], which is caught around [float].  With [strict] set the
    only exception other than [AssertionError] is [TypeError]. *)
Theorem assert_equal_exceptions {Q : QNames} {F : Floats} {R : Regex}
  (elem other : Element) (strict skip_comments unordered : bool) :
  exists o,
    etree_elements_assert_equal elem other strict skip_comments unordered
    = Some o
    /\ (forall e,
          o = Raised e ->
          e = TypeError \/ e = AttributeError \/ e = re_error
          \/ e = IndexError)
    /\ (strict = true -> forall e, o = Raised e -> e = TypeError).
Proof.
  destruct (etree_elements_assert_equal_total strict skip_comments unordered
              elem other) as [o Ho].
  exists o. split; [exact Ho|]. unfold etree_elements_assert_equal in Ho.
  assert (H : forall e, o = Raised e -> may_raise strict e).
  { intros e ->. now apply assert_equal_upto_raised in Ho. }
  split.
  - intros e He. destruct (H e He) as [->|[_ Hx]]; tauto.
  - intros Hs e He. destruct (H e He) as [->|[Hf _]]; [reflexivity|].
    congruence.
Qed.

(** In the strict mode two nodes whose attributes differ end the call with
    the [TypeError] of the message, not with an assertion error. *)
Example assert_equal_strict_attributes :
  @etree_elements_assert_equal SpecQNames.spec_qnames Decimals.decimals
    Literals.literals
    (Examples.node 0 "r" [mkElement 1 (Name "a") [("k", "1")] None None []])
    (Examples.node 2 "r" [mkElement 3 (Name "a") [("k", "2")] None None []])
    true true false
  = Some (Raised TypeError).
Proof. reflexivity. Qed.

(** Outside the strict mode a comment that is not skipped is given to
    [get_namespace], which raises. *)
Example assert_equal_comment_compared :
  @etree_elements_assert_equal SpecQNames.spec_qnames Decimals.decimals
    Literals.literals
    (Examples.node 0 "r" [Examples.comment 1 "note"])
    (Examples.node 2 "r" [Examples.comment 3 "note"])
    false false false
  = Some (Raised TypeError).
Proof. reflexivity. Qed.

Section ComparatorRelax.
Context {Q : QNames} {F : Floats} {R : Regex}.
Variables skip_comments unordered : bool.

Lemma check_attrib_relax (e1 e2 : Element) :
  check_attrib true e1 e2 = Pass -> check_attrib false e1 e2 = Pass.
Proof. unfold check_attrib. destruct (negb _); [discriminate | auto]. Qed.

Lemma check_text_relax (e1 e2 : Element) :
  check_text true e1 e2 = Pass -> check_text false e1 e2 = Pass.
Proof. unfold check_text. destruct (negb _); [discriminate | auto]. Qed.

Lemma check_tail_relax (e1 e2 : Element) :
  check_tail true e1 e2 = Pass -> check_tail false e1 e2 = Pass.
Proof. unfold check_tail. destruct (negb _); [discriminate | auto]. Qed.

Lemma check_tag_strict_pass (elem e1 e2 : Element) (ns : string) :
  fst (check_tag true elem e1 e2 ns) = Pass <-> tag_eqb (tag e1) (tag e2) = true.
Proof.
  unfold check_tag. cbn [orb fst].
  destruct (tag_eqb (tag e1) (tag e2)); split; congruence.
Qed.

Lemma pair_checks_relax (elem e1 e2 : Element) (ns ns' : string) :
  callable (tag e1) = false ->
  (fst (check_tag true elem e1 e2 ns) ;; check_attrib true e1 e2
   ;; check_children_number skip_comments e1 e2 ;; check_text true e1 e2
   ;; check_tail true e1 e2) = Pass ->
  (fst (check_tag false elem e1 e2 ns') ;; check_attrib false e1 e2
   ;; check_children_number skip_comments e1 e2 ;; check_text false e1 e2
   ;; check_tail false e1 e2) = Pass.
Proof.
  intros Hname. rewrite !and_then_pass. intros (Ht & Ha & Hn & Hx & Hl).
  apply check_tag_strict_pass, tag_eqb_eq in Ht.
  split; [apply check_tag_same; [exact Ht | now right]|].
  split; [now apply check_attrib_relax|].
  split; [exact Hn|].
  split; [now apply check_text_relax | now apply check_tail_relax].
Qed.

Lemma compare_children_relax
  (rec rec' : Element -> Element -> option outcome) (elem other : Element)
  (cs : list Element) :
  (forall e1 e2, In e1 cs -> rec e1 e2 = Some Pass -> rec' e1 e2 = Some Pass) ->
  (forall c, In c cs -> callable (tag c) = true -> skip_comments = true) ->
  forall ns ns' os,
    compare_children true skip_comments rec elem other ns cs os = Some Pass ->
    compare_children false skip_comments rec' elem other ns' cs os
    = Some Pass.
Proof.
  induction cs as [|e1 cs IH]; intros Hrec Hcall ns ns' os;
    cbn [compare_children].
  - destruct os; [auto | discriminate].
  - assert (Hcs : forall a b, In a cs -> rec a b = Some Pass ->
                              rec' a b = Some Pass)
      by (intros; apply Hrec; [now right | assumption]).
    assert (Hcc : forall c, In c cs -> callable (tag c) = true ->
                            skip_comments = true)
      by (intros c Hc; apply Hcall; now right).
    destruct (skip_comments && callable (tag e1)) eqn:Eskip;
      [now apply IH|].
    assert (Hname : callable (tag e1) = false).
    { destruct (callable (tag e1)) eqn:E; [|reflexivity].
      rewrite (Hcall e1 (or_introl eq_refl) E) in Eskip.
      discriminate Eskip. }
    destruct os as [|e2 os]; [discriminate|].
    pose proof (@pair_checks_relax elem e1 e2 ns ns' Hname) as Hp.
    destruct (check_tag true elem e1 e2 ns) as [o n1].
    destruct (check_tag false elem e1 e2 ns') as [o' n1'].
    cbn [fst] in Hp.
    destruct (o ;; _); try discriminate.
    rewrite (Hp eq_refl).
    destruct (rec e1 e2) as [[]|] eqn:Er; try discriminate.
    rewrite (Hrec e1 e2 (or_introl eq_refl) Er). now apply IH.
Qed.

Lemma assert_equal_upto_relax (d : nat) :
  forall elem other,
    (forall n, In n (nodes elem) -> callable (tag n) = true ->
               skip_comments = true) ->
    assert_equal_upto true skip_comments unordered d elem other = Some Pass ->
    assert_equal_upto false skip_comments unordered d elem other = Some Pass.
Proof.
  induction d as [|d IH]; intros elem other Hcall; [discriminate|].
  simpl. apply compare_children_relax.
  - intros e1 e2 Hin. apply IH. intros n Hn. apply Hcall.
    apply (proj1 (ordered_In _ _ _)) in Hin. eapply nodes_child; eauto.
  - intros c Hc. apply (proj1 (ordered_In _ _ _)) in Hc. apply Hcall.
    eapply nodes_child; eauto using nodes_self.
Qed.

(** X12.  The non-strict comparison relaxes the strict one as long as no
    node with a callable tag is compared: when every node of [elem] with a
    callable tag is skipped, which is so when [skip_comments] is set or
    when there is no such node, two trees that pass with [strict] set pass
    without it, [skip_comments] and [unordered] being the same, whatever
    the namespace and numeric tolerances are. *)
Theorem assert_equal_strict_implies_tolerant (elem other : Element) :
  (forall n, In n (nodes elem) -> callable (tag n) = true ->
             skip_comments = true) ->
  etree_elements_assert_equal elem other true skip_comments unordered
  = Some Pass ->
  etree_elements_assert_equal elem other false skip_comments unordered
  = Some Pass.
Proof. apply assert_equal_upto_relax. Qed.

End ComparatorRelax.

(** A tree and a copy of it made of other objects. *)
Lemma assert_equal_strict_implies_tolerant_witness :
  (forall n,
      In n (nodes (Examples.node 0 "r"
                     [Examples.leaf 1 "a" (Some "1.0") None])) ->
      callable (tag n) = true -> false = true)
  /\ @etree_elements_assert_equal SpecQNames.spec_qnames Decimals.decimals
       Literals.literals
       (Examples.node 0 "r" [Examples.leaf 1 "a" (Some "1.0") None])
       (Examples.node 2 "r" [Examples.leaf 3 "a" (Some "1.0") None])
       true false false
     = Some Pass
  /\ @etree_elements_assert_equal SpecQNames.spec_qnames Decimals.decimals
       Literals.literals
       (Examples.node 0 "r" [Examples.leaf 1 "a" (Some "1.0") None])
       (Examples.node 2 "r" [Examples.leaf 3 "a" (Some "1.0") None])
       false false false
     = Some Pass.
Proof.
  assert (H0 : forall n,
      In n (nodes (Examples.node 0 "r"
                     [Examples.leaf 1 "a" (Some "1.0") None])) ->
      callable (tag n) = true -> false = true)
    by (intros n [<-|[<-|[]]] Hc; discriminate Hc).
  assert (H : @etree_elements_assert_equal SpecQNames.spec_qnames
                Decimals.decimals Literals.literals
                (Examples.node 0 "r" [Examples.leaf 1 "a" (Some "1.0") None])
                (Examples.node 2 "r" [Examples.leaf 3 "a" (Some "1.0") None])
                true false false
              = Some Pass) by reflexivity.
  split; [exact H0|]. split; [exact H|].
  exact (@assert_equal_strict_implies_tolerant SpecQNames.spec_qnames
           Decimals.decimals Literals.literals false false _ _ H0 H).
Defined.

(** With a comment that is compared the strict call passes and the
    non-strict one does not. *)
Example assert_equal_comment_strict_only :
  @etree_elements_assert_equal SpecQNames.spec_qnames Decimals.decimals
    Literals.literals
    (Examples.node 0 "r" [Examples.comment 1 "note"])
    (Examples.node 2 "r" [Examples.comment 3 "note"])
    true false false
  = Some Pass.
Proof. reflexivity. Qed.

Section ComparatorStructure.
Context {Q : QNames} {F : Floats} {R : Regex}.

Lemma forall2b_length (f : Element -> Element -> bool) (cs os : list Element) :
  forall2b f cs os = true -> List.length cs = List.length os.
Proof.
  revert os. induction cs as [|c cs IH]; intros [|o os]; simpl;
    try discriminate; [reflexivity|].
  intros H. apply andb_true_iff in H. f_equal. now apply IH.
Qed.

Lemma same_tree_unfold (e1 e2 : Element) :
  same_tree e1 e2
  = tag_eqb (tag e1) (tag e2)
    && Py.dict_eqb (attrib e1) (attrib e2)
    && Py.option_string_eqb (text e1) (text e2)
    && Py.option_string_eqb (tail e1) (tail e2)
    && forall2b same_tree (children e1) (children e2).
Proof. destruct e1; reflexivity. Qed.

Lemma strict_pair_checks (elem e1 e2 : Element) (ns : string) :
  (fst (check_tag true elem e1 e2 ns) ;; check_attrib true e1 e2
   ;; check_children_number false e1 e2 ;; check_text true e1 e2
   ;; check_tail true e1 e2) = Pass
  <-> tag_eqb (tag e1) (tag e2) = true
      /\ Py.dict_eqb (attrib e1) (attrib e2) = true
      /\ List.length (children e1) = List.length (children e2)
      /\ Py.option_string_eqb (text e1) (text e2) = true
      /\ Py.option_string_eqb (tail e1) (tail e2) = true.
Proof.
  rewrite !and_then_pass, check_tag_strict_pass.
  unfold check_attrib, check_children_number, count_children, check_text,
    check_tail.
  destruct (Py.dict_eqb (attrib e1) (attrib e2));
    destruct (Py.option_string_eqb (text e1) (text e2));
    destruct (Py.option_string_eqb (tail e1) (tail e2));
    (destruct (List.length (children e1) =? List.length (children e2)) eqn:En;
     [apply Nat.eqb_eq in En | apply Nat.eqb_neq in En]);
    cbn [negb];
    split; intros (H1 & H2 & H3 & H4 & H5); repeat split;
    try assumption; try reflexivity; try discriminate; try contradiction.
Qed.

Lemma compare_children_strict
  (rec : Element -> Element -> option outcome) (elem other : Element)
  (cs : list Element) :
  (forall c o, In c cs ->
               (rec c o = Some Pass
                <-> forall2b same_tree (children c) (children o) = true)) ->
  forall ns os,
    compare_children true false rec elem other ns cs os = Some Pass
    <-> forall2b same_tree cs os = true.
Proof.
  induction cs as [|c cs IH]; intros Hrec ns os;
    cbn [compare_children forall2b andb].
  - destruct os; split; auto; discriminate.
  - assert (Hcs : forall a b, In a cs ->
              (rec a b = Some Pass
               <-> forall2b same_tree (children a) (children b) = true))
      by (intros; apply Hrec; now right).
    destruct os as [|o os]; [split; discriminate|].
    pose proof (strict_pair_checks elem c o ns) as Hp.
    pose proof (Hrec c o (or_introl eq_refl)) as Hr.
    rewrite same_tree_unfold, !andb_true_iff.
    destruct (check_tag true elem c o ns) as [oc n1]. cbn [fst] in Hp.
    destruct (oc ;; _) eqn:E.
    + destruct Hp as [Hp _]. destruct (Hp eq_refl) as (H1 & H2 & H3 & H4 & H5).
      destruct (rec c o) as [[]|] eqn:Er.
      * rewrite (IH Hcs n1 os). destruct Hr as [Hr _].
        specialize (Hr eq_refl). tauto.
      * split; [discriminate|]. intros [[_ Hc] _].
        apply Hr in Hc. discriminate Hc.
      * split; [discriminate|]. intros [[_ Hc] _].
        apply Hr in Hc. discriminate Hc.
      * split; [discriminate|]. intros [[_ Hc] _].
        apply Hr in Hc. discriminate Hc.
    + split; [discriminate|]. intros [[[[[H1 H2] H4] H5] Hc] _].
      destruct Hp as [_ Hp]. apply forall2b_length in Hc.
      discriminate Hp. tauto.
    + split; [discriminate|]. intros [[[[[H1 H2] H4] H5] Hc] _].
      destruct Hp as [_ Hp]. apply forall2b_length in Hc.
      discriminate Hp. tauto.
Qed.

Lemma assert_equal_upto_strict (d : nat) :
  forall elem other,
    height elem <= d ->
    (assert_equal_upto true false false d elem other = Some Pass
     <-> forall2b same_tree (children elem) (children other) = true).
Proof.
  induction d as [|d IH]; intros elem other Hh.
  - destruct elem; simpl in Hh; lia.
  - simpl. apply compare_children_strict. intros c o Hc. apply IH.
    apply height_child in Hc. lia.
Qed.

(** X13.  The strict comparison in document order, comments compared, is
    equality of the contents below the two roots: the call passes exactly
    when the two roots have the same number of children and the children
    are, pair by pair, the same subtrees: same tag, same attributes as
    dictionaries, same text, same tail, and the same below. *)
Theorem assert_equal_strict_is_equality (elem other : Element) :
  etree_elements_assert_equal elem other true false false = Some Pass
  <-> forall2b same_tree (children elem) (children other) = true.
Proof. apply assert_equal_upto_strict. lia. Qed.

End ComparatorStructure.

Lemma insert_sorted_filter_length (A : Type) (key : A -> string)
  (f : A -> bool) (x : A) (l : list A) :
  List.length (filter f (Py.insert_sorted key x l))
  = List.length (filter f (x :: l)).
Proof.
  induction l as [|y l IH]; [reflexivity|]. cbn [Py.insert_sorted].
  destruct (String.ltb (key y) (key x)); [|reflexivity].
  cbn [filter] in *. destruct (f y), (f x); cbn [List.length] in *; lia.
Qed.

Lemma sorted_filter_length (A : Type) (key : A -> string) (f : A -> bool)
  (l : list A) :
  List.length (filter f (Py.sorted key l)) = List.length (filter f l).
Proof.
  induction l as [|x l IH]; [reflexivity|].
  unfold Py.sorted in *. cbn [fold_right].
  rewrite insert_sorted_filter_length. cbn [filter].
  destruct (f x); cbn [List.length]; congruence.
Qed.

Lemma sorted_length (A : Type) (key : A -> string) (l : list A) :
  List.length (Py.sorted key l) = List.length l.
Proof.
  pose proof (sorted_filter_length key (fun _ => true) l) as H.
  now rewrite !filter_true in H.
Qed.

Section ComparatorCounts.
Context {Q : QNames} {F : Floats} {R : Regex}.
Variables strict skip_comments unordered : bool.

Lemma compare_children_pass_length
  (rec : Element -> Element -> option outcome) (elem other : Element) :
  forall cs ns os,
    compare_children strict skip_comments rec elem other ns cs os
    = Some Pass ->
    List.length
      (filter (fun c => negb (skip_comments && callable (tag c))) cs)
    = List.length os.
Proof.
  induction cs as [|e1 cs IH]; intros ns os; cbn [compare_children filter].
  - destruct os; [reflexivity | discriminate].
  - destruct (skip_comments && callable (tag e1)); cbn [negb]; [apply IH|].
    destruct os as [|e2 os]; [discriminate|].
    destruct (check_tag strict elem e1 e2 ns) as [o n1].
    destruct (o ;; _); try discriminate.
    destruct (rec e1 e2) as [[]|]; try discriminate.
    intros H. cbn [List.length]. f_equal. now apply IH with n1.
Qed.

Lemma assert_equal_pass_length (elem other : Element) :
  etree_elements_assert_equal elem other strict skip_comments unordered
  = Some Pass ->
  List.length (compared_children skip_comments elem)
  = List.length (children other).
Proof.
  unfold etree_elements_assert_equal, compared_children.
  destruct (height elem) as [|d]; [discriminate|].
  rewrite assert_equal_upto_S. intros H.
  apply compare_children_pass_length in H. unfold ordered in H.
  destruct unordered; [|exact H].
  rewrite sorted_filter_length in H. rewrite H. apply sorted_length.
Qed.

(** X14.  A call that passes has paired every child of [elem] that it does
    not skip with one child of [other], and has left none over: the number
    of children of [elem], without those with a callable tag when
    [skip_comments] is set, is the number of all the children of [other],
    from which nothing is skipped. *)
Theorem assert_equal_pass_counts (elem other : Element) :
  etree_elements_assert_equal elem other strict skip_comments unordered
  = Some Pass ->
  List.length (compared_children skip_comments elem)
  = List.length (children other).
Proof. apply assert_equal_pass_length. Qed.

End ComparatorCounts.

(** X21.  With [skip_comments] set, a tree whose root has a child with a
    callable tag never passes the comparison with itself, whatever [strict]
    and [unordered] are: the child is skipped on the left and still counted
    on the right. *)
Theorem assert_equal_comment_never_reflexive {Q : QNames} {F : Floats}
  {R : Regex} (t : Element) (strict unordered : bool) :
  (exists c, In c (children t) /\ callable (tag c) = true) ->
  etree_elements_assert_equal t t strict true unordered <> Some Pass.
Proof.
  intros (c & Hc & Hcall) Hpass.
  apply assert_equal_pass_length in Hpass. unfold compared_children in Hpass.
  apply filter_length_forallb in Hpass.
  rewrite forallb_forall in Hpass. specialize (Hpass c Hc).
  rewrite Hcall in Hpass. discriminate Hpass.
Qed.

(** The theorem on a root with a comment and an element. *)
Lemma assert_equal_comment_never_reflexive_witness :
  (exists c, In c (children Examples.commented) /\ callable (tag c) = true)
  /\ @etree_elements_assert_equal SpecQNames.spec_qnames Decimals.decimals
       Literals.literals
       Examples.commented Examples.commented false true true
     <> Some Pass.
Proof.
  assert (H : exists c, In c (children Examples.commented)
                        /\ callable (tag c) = true).
  { exists (Examples.comment 1 "note"). split; [now left | reflexivity]. }
  split; [exact H|].
  exact (@assert_equal_comment_never_reflexive SpecQNames.spec_qnames
           Decimals.decimals
       Literals.literals Examples.commented false true H).
Defined.

(** The theorem on two roots with one element each, the left one with a
    comment besides. *)
Lemma assert_equal_pass_counts_witness :
  @etree_elements_assert_equal SpecQNames.spec_qnames Decimals.decimals
       Literals.literals
    (Examples.node 0 "r"
       [Examples.comment 1 "note"; Examples.leaf 2 "a" None None])
    (Examples.node 3 "r" [Examples.leaf 4 "a" None None])
    true true false
  = Some Pass
  /\ List.length
       (compared_children true
          (Examples.node 0 "r"
             [Examples.comment 1 "note"; Examples.leaf 2 "a" None None]))
     = List.length (children (Examples.node 3 "r"
                                [Examples.leaf 4 "a" None None])).
Proof.
  assert (H : @etree_elements_assert_equal SpecQNames.spec_qnames
                Decimals.decimals
       Literals.literals
                (Examples.node 0 "r"
                   [Examples.comment 1 "note"; Examples.leaf 2 "a" None None])
                (Examples.node 3 "r" [Examples.leaf 4 "a" None None])
                true true false
              = Some Pass) by reflexivity.
  split; [exact H|].
  exact (@assert_equal_pass_counts SpecQNames.spec_qnames Decimals.decimals
       Literals.literals
           true true false _ _ H).
Defined.

(** A tree without comments, compared with itself outside the strict
    mode. *)
Lemma etree_elements_assert_equal_refl_witness :
  (forall n,
      In n (nodes (Examples.node 0 "r" [Examples.leaf 1 "a" (Some "x") None])) ->
      callable (tag n) = true -> false = true /\ true = false)
  /\ (forall n,
         In n (nodes (Examples.node 0 "r"
                        [Examples.leaf 1 "a" (Some "x") None])) ->
         NoDup (Py.dict_keys (attrib n)))
  /\ @etree_elements_assert_equal SpecQNames.spec_qnames Decimals.decimals
       Literals.literals
       (Examples.node 0 "r" [Examples.leaf 1 "a" (Some "x") None])
       (Examples.node 0 "r" [Examples.leaf 1 "a" (Some "x") None])
       false true true
     = Some Pass.
Proof.
  assert (H1 : forall n,
      In n (nodes (Examples.node 0 "r" [Examples.leaf 1 "a" (Some "x") None])) ->
      callable (tag n) = true -> false = true /\ true = false).
  { intros n [<-|[<-|[]]] Hc; discriminate Hc. }
  assert (H2 : forall n,
      In n (nodes (Examples.node 0 "r" [Examples.leaf 1 "a" (Some "x") None])) ->
      NoDup (Py.dict_keys (attrib n))).
  { intros n [<-|[<-|[]]]; constructor. }
  split; [exact H1|]. split; [exact H2|].
  exact (@etree_elements_assert_equal_refl SpecQNames.spec_qnames
           Decimals.decimals Literals.literals false true true _ H1 H2).
Defined.

(** A tree with a comment, compared with itself in the strict mode,
    comments compared. *)
Example assert_equal_commented_strict :
  @etree_elements_assert_equal SpecQNames.spec_qnames Decimals.decimals
    Literals.literals Examples.commented Examples.commented true false false
  = Some Pass.
Proof. reflexivity. Qed.

(** Two pairs of roots with the same children and identities, and other
    tags and texts. *)
Lemma etree_elements_assert_equal_roots_witness :
  @etree_elements_assert_equal SpecQNames.spec_qnames Decimals.decimals
       Literals.literals
    (mkElement 0 (Name "a") [] (Some "x") None [Examples.node 1 "c" []])
    (mkElement 2 (Name "a") [] None None [Examples.node 3 "d" []])
    true true false
  = @etree_elements_assert_equal SpecQNames.spec_qnames Decimals.decimals
       Literals.literals
      (mkElement 0 (Name "b") [("k", "v")] None (Some "y")
         [Examples.node 1 "c" []])
      (mkElement 2 (Name "z") [] (Some "w") None [Examples.node 3 "d" []])
      true true false.
Proof.
  exact (@etree_elements_assert_equal_roots SpecQNames.spec_qnames
           Decimals.decimals
       Literals.literals true true false
           (mkElement 0 (Name "a") [] (Some "x") None [Examples.node 1 "c" []])
           (mkElement 2 (Name "a") [] None None [Examples.node 3 "d" []])
           (mkElement 0 (Name "b") [("k", "v")] None (Some "y")
              [Examples.node 1 "c" []])
           (mkElement 2 (Name "z") [] (Some "w") None [Examples.node 3 "d" []])
           eq_refl eq_refl eq_refl eq_refl).
Defined.

(* ================================================================= *)
(** ** Pruner: what the call keeps and what it leaves behind *)

Section PrunerProperties.
Variable selector : Element -> bool.

Lemma pruned_own_data (e : Element) :
  own_data (pruned selector e) = own_data e.
Proof. destruct e; reflexivity. Qed.

Lemma pruned_children (e : Element) :
  children (pruned selector e)
  = map (pruned selector) (filter (fun c => negb (selector c)) (children e)).
Proof. destruct e. cbn [pruned children set_children]. apply map_kept_filter. Qed.

Lemma pruned_eq (i : nat) (t : Tag) (a : Py.dict) (x l : option string)
  (cs : list Element) :
  pruned selector (mkElement i t a x l cs)
  = mkElement i t a x l
      (map (pruned selector) (filter (fun c => negb (selector c)) cs)).
Proof.
  cbn [pruned children]. unfold set_children. cbn [eid tag attrib text tail].
  f_equal. apply map_kept_filter.
Qed.

Lemma pruned_well_formed (e : Element) :
  well_formed e -> well_formed (pruned selector e).
Proof.
  unfold well_formed. intros H. rewrite nodes_pruned_eid.
  now apply survivors_NoDup.
Qed.

Lemma pruned_unchanged (e : Element) :
  (forall c, In c (children e) ->
             forall n, In n (nodes c) -> selector n = false) ->
  pruned selector e = e.
Proof.
  induction e as [i t a x l cs IH] using Element_ind.
  cbn [children]. intros H. rewrite pruned_eq. f_equal.
  rewrite forallb_filter_id.
  - rewrite <- (map_id cs) at 2. apply map_ext_in. intros c Hc.
    rewrite Forall_forall in IH. apply IH; [exact Hc|].
    intros d Hd n Hn. apply (H c Hc).
    eapply nodes_child; eauto.
  - apply forallb_forall. intros c Hc.
    rewrite (H c Hc c (nodes_self c)). reflexivity.
Qed.

Lemma pruned_clean (e : Element) :
  own_data_selector selector ->
  forall c, In c (children (pruned selector e)) ->
            forall n, In n (nodes c) -> selector n = false.
Proof.
  intros Hsel. induction e as [i t a x l cs IH] using Element_ind.
  intros c Hc n Hn. rewrite pruned_children in Hc. cbn [children] in Hc.
  apply in_map_iff in Hc. destruct Hc as (c0 & <- & Hc0).
  apply filter_In in Hc0. destruct Hc0 as [Hc0 Hkeep].
  apply negb_true_iff in Hkeep.
  destruct (pruned selector c0) as [i' t' a' x' l' cs'] eqn:E.
  cbn [nodes] in Hn. destruct Hn as [<-|Hn].
  - rewrite <- E, (Hsel _ c0 (pruned_own_data c0)). exact Hkeep.
  - apply in_flat_map in Hn. destruct Hn as (d & Hd & Hn).
    rewrite Forall_forall in IH. apply (IH c0 Hc0 d); [|exact Hn].
    rewrite E. exact Hd.
Qed.

Lemma pruned_idempotent (e : Element) :
  own_data_selector selector ->
  pruned selector (pruned selector e) = pruned selector e.
Proof.
  intros Hsel. induction e as [i t a x l cs IH] using Element_ind.
  rewrite !pruned_eq. f_equal.
  assert (Hf : filter (fun c => negb (selector c))
                 (map (pruned selector)
                    (filter (fun c => negb (selector c)) cs))
               = map (pruned selector)
                   (filter (fun c => negb (selector c)) cs)).
  { apply forallb_filter_id. apply forallb_forall. intros c Hc.
    apply in_map_iff in Hc. destruct Hc as (c0 & <- & Hc0).
    apply filter_In in Hc0. destruct Hc0 as [_ Hkeep].
    now rewrite (Hsel _ c0 (pruned_own_data c0)). }
  rewrite Hf, map_map. apply map_ext_in. intros c Hc.
  apply filter_In in Hc. rewrite Forall_forall in IH. apply IH. tauto.
Qed.

Lemma prune_etree_not_selected (root : Element) :
  well_formed root -> selector root = false ->
  prune_etree selector root = (None, pruned selector root).
Proof.
  intros Hwf Hroot. unfold prune_etree. rewrite Hroot. f_equal.
  now apply _prune_subtree_pruned.
Qed.

(** X15.  When the selector holds of no node of a tree in which no object
    occurs twice, the call returns [None] and leaves the tree as it was. *)
Theorem prune_etree_unchanged (root : Element) :
  well_formed root ->
  (forall n, In n (nodes root) -> selector n = false) ->
  prune_etree selector root = (None, root).
Proof.
  intros Hwf Hnone. unfold prune_etree.
  rewrite (Hnone root (nodes_self root)). f_equal.
  rewrite _prune_subtree_pruned by (auto; lia).
  apply pruned_unchanged. intros c Hc n Hn. apply Hnone.
  eapply nodes_child; eauto.
Qed.

(** X16.  The call keeps the tree a tree: after it no object occurs twice,
    the root is the same object, and every object of the tree was in the
    tree before the call. *)
Theorem prune_etree_well_formed (root : Element) :
  well_formed root ->
  well_formed (snd (prune_etree selector root))
  /\ eid (snd (prune_etree selector root)) = eid root
  /\ incl (map eid (nodes (snd (prune_etree selector root))))
       (map eid (nodes root)).
Proof.
  intros Hwf. unfold prune_etree. destruct (selector root); cbn [snd].
  - destruct root as [i t a x l cs]. split; [|split].
    + unfold well_formed. simpl. repeat constructor. tauto.
    + reflexivity.
    + intros j [<-|[]]. now left.
  - rewrite _prune_subtree_pruned by (auto; lia). split; [|split].
    + now apply pruned_well_formed.
    + destruct root; reflexivity.
    + rewrite nodes_pruned_eid. intros j Hj.
      apply in_map_iff in Hj. destruct Hj as (n & <- & Hn).
      apply in_map. now apply survivors_nodes with selector.
Qed.

(** X17.  With a selector that looks at what a node carries by itself (not
    at its children) and that does not hold of [root], no node below [root]
    passes the selector once the call has returned. *)
Theorem prune_etree_leaves_no_match (root : Element) :
  well_formed root -> own_data_selector selector ->
  selector root = false ->
  forall c, In c (children (snd (prune_etree selector root))) ->
            forall n, In n (nodes c) -> selector n = false.
Proof.
  intros Hwf Hsel Hroot. unfold prune_etree. rewrite Hroot. cbn [snd].
  rewrite _prune_subtree_pruned by (auto; lia).
  now apply pruned_clean.
Qed.

(** X18.  With such a selector a second call changes nothing: it returns
    what the first call returned and leaves the tree as the first call left
    it. *)
Theorem prune_etree_idempotent (root : Element) :
  well_formed root -> own_data_selector selector ->
  prune_etree selector (snd (prune_etree selector root))
  = prune_etree selector root.
Proof.
  intros Hwf Hsel. destruct (selector root) eqn:Hroot.
  - assert (H1 : prune_etree selector root
                 = (Some true, set_children root []))
      by (unfold prune_etree; now rewrite Hroot).
    rewrite H1. cbn [snd]. unfold prune_etree.
    assert (Hs : selector (set_children root []) = selector root)
      by (apply Hsel; destruct root; reflexivity).
    rewrite Hs, Hroot. destruct root; reflexivity.
  - rewrite (prune_etree_not_selected Hwf Hroot). cbn [snd].
    rewrite prune_etree_not_selected.
    + now rewrite pruned_idempotent.
    + now apply pruned_well_formed.
    + now rewrite (Hsel _ root (pruned_own_data root)).
Qed.

End PrunerProperties.

Lemma tree_rxy_well_formed : well_formed Examples.tree_rxy.
Proof.
  unfold well_formed. simpl. repeat constructor; simpl; intuition discriminate.
Qed.

Lemma tagged_x_own_data : own_data_selector Examples.tagged_x.
Proof.
  intros a b H. unfold Examples.tagged_x, own_data in *.
  inversion H. congruence.
Qed.

(** The theorem on the tree [r], [x], [y] and the selector of no node. *)
Lemma prune_etree_unchanged_witness :
  well_formed Examples.tree_rxy
  /\ prune_etree (fun _ => false) Examples.tree_rxy
     = (None, Examples.tree_rxy).
Proof.
  split; [exact tree_rxy_well_formed|].
  exact (@prune_etree_unchanged (fun _ => false) Examples.tree_rxy
           tree_rxy_well_formed (fun n _ => eq_refl)).
Defined.

(** The theorem on the tree [r], [x], [y] and the selector of the nodes
    tagged [x]. *)
Lemma prune_etree_well_formed_witness :
  well_formed Examples.tree_rxy
  /\ well_formed (snd (prune_etree Examples.tagged_x Examples.tree_rxy))
  /\ eid (snd (prune_etree Examples.tagged_x Examples.tree_rxy))
     = eid Examples.tree_rxy
  /\ incl
       (map eid (nodes (snd (prune_etree Examples.tagged_x
                               Examples.tree_rxy))))
       (map eid (nodes Examples.tree_rxy)).
Proof.
  split; [exact tree_rxy_well_formed|].
  exact (@prune_etree_well_formed Examples.tagged_x Examples.tree_rxy
           tree_rxy_well_formed).
Defined.

Lemma prune_etree_leaves_no_match_witness :
  well_formed Examples.tree_rxy
  /\ own_data_selector Examples.tagged_x
  /\ Examples.tagged_x Examples.tree_rxy = false
  /\ forall c,
      In c (children (snd (prune_etree Examples.tagged_x
                             Examples.tree_rxy))) ->
      forall n, In n (nodes c) -> Examples.tagged_x n = false.
Proof.
  split; [exact tree_rxy_well_formed|].
  split; [exact tagged_x_own_data|].
  split; [reflexivity|].
  exact (@prune_etree_leaves_no_match Examples.tagged_x Examples.tree_rxy
           tree_rxy_well_formed tagged_x_own_data eq_refl).
Defined.

Lemma prune_etree_idempotent_witness :
  well_formed Examples.tree_rxy
  /\ own_data_selector Examples.tagged_x
  /\ prune_etree Examples.tagged_x
       (snd (prune_etree Examples.tagged_x Examples.tree_rxy))
     = prune_etree Examples.tagged_x Examples.tree_rxy.
Proof.
  split; [exact tree_rxy_well_formed|].
  split; [exact tagged_x_own_data|].
  exact (@prune_etree_idempotent Examples.tagged_x Examples.tree_rxy
           tree_rxy_well_formed tagged_x_own_data).
Defined.
